(** * adamant-im: the Dogecoin wallet API ([src/lib/doge-api.js])

    A shallow embedding of the class [DogeApi] (key derivation in the
    constructor, [createTransaction], [_buildTransaction], and the
    endpoint client behind [_get] and [_post]) with the properties of
    its specification proved or refuted on it.

    Modelling conventions.
    - Numbers.  A JavaScript number is an IEEE 754 binary64 value: the
      primitive [float] of Rocq, whose [*], [+], [-] and comparisons are
      those of the hardware, as JavaScript's are.  [Math.floor] is
      defined on the sign, mantissa and exponent of its argument.
      Properties of the arithmetic are derived from the specification
      of the primitive operations ([FloatAxioms]).
    - A [Buffer] is a [list byte]; a string is a [string], read as its
      UTF-8 bytes where the file turns it into a [Buffer].
    - A function that can throw returns a [Completion]; a function that
      changes [this] returns the new [this] beside its result.
    - bitcoinjs-lib.  [crypto.sha256], the key pair of
      [ECPair.fromPrivateKey] and the address of [payments.p2pkh] are
      computed as the standards they implement define them (SHA-256,
      RIPEMD-160, secp256k1, Base58Check).  A [TransactionBuilder] is
      the record of what the file hands to it; its methods update that
      record after the checks the library applies to their arguments
      (a previous-output hash of 32 bytes that is not all zero and not
      used twice, an address that decodes to a script of the network,
      an output value that is a [Satoshi], an input to sign, a
      transaction with inputs and outputs to build) and throw where the
      library throws.  The bytes of the built transaction are a
      parameter ([toBuffer]).
    - axios and [getEnpointUrl] are outside the file: an axios instance
      is known by its [baseURL], and the URL [getEnpointUrl] picks is an
      argument of the functions that call it. *)

From Corelib Require Import PrimFloat FloatOps SpecFloat FloatAxioms.
From Stdlib Require Import ZArith Lia Ascii String Strings.Byte.
From stdpp Require Import base list strings gmap.

(** A decimal literal stands for the nearest binary64 value, as it does
    in JavaScript. *)
Set Warnings "-inexact-float".

Local Open Scope Z_scope.

(** ** Completions *)

(** What a completion can throw: a [TypeError] (raised by JavaScript,
    or by bitcoinjs-lib with this message); the exception with which
    bitcoinjs-lib rejects an argument or the state of a builder, known
    here by the check that failed; and the [InsufficientFunds] failure
    the specification names, which no statement of the file raises. *)
Inductive Failure :=
| TypeError (message : string)
| Rejected (check : string)
| InsufficientFunds.

Inductive Completion (A : Type) :=
| Normal (value : A)
| Throw (failure : Failure).
Arguments Normal {A} value.
Arguments Throw {A} failure.

#[global] Instance Completion_bind : MBind Completion := fun _ _ f c =>
  match c with
  | Normal x => f x
  | Throw e => Throw e
  end.

(** [array.forEach(callback)], the callback working on the locals [s]
    it closes over: an exception thrown by a call ends the loop. *)
Fixpoint forEach {A S : Type} (callback : S -> A -> Completion S) (array : list A) (s : S)
  : Completion S :=
  match array with
  | [] => Normal s
  | x :: rest => s' ← callback s x; forEach callback rest s'
  end.

(** ** Module constants *)

Record Network := {
  messagePrefix : string;
  bip32_public : Z;
  bip32_private : Z;
  pubKeyHash : Z;
  scriptHash : Z;
  wif : Z
}.

#[global] Instance Network_eq_dec : EqDecision Network.
Proof. solve_decision. Defined.

(** [coininfo.dogecoin.main.toBitcoinJS()]: the fields [network] reads,
    with the values of Dogecoin's main network. *)
Record CoinFormat := {
  name : string;
  fmt_bip32_public : Z;
  fmt_bip32_private : Z;
  fmt_pubKeyHash : Z;
  fmt_scriptHash : Z;
  fmt_wif : Z
}.

Definition fmt : CoinFormat := {|
  name := "Dogecoin";
  fmt_bip32_public := 0x02facafd;
  fmt_bip32_private := 0x02fac398;
  fmt_pubKeyHash := 0x1e;
  fmt_scriptHash := 0x16;
  fmt_wif := 0x9e
|}.

Definition network : Network := {|
  messagePrefix :=
    String (ascii_of_nat 25) (name fmt +:+ " Signed Message:" +:+ String (ascii_of_nat 10) "");
  bip32_public := fmt_bip32_public fmt;
  bip32_private := fmt_bip32_private fmt;
  pubKeyHash := fmt_pubKeyHash fmt;
  scriptHash := fmt_scriptHash fmt;
  wif := fmt_wif fmt
|}.

(** ** Numbers *)

(** Lines 20-21. *)
Definition MULTIPLIER : float := 100000000%float.
Definition TX_FEE : float := 1%float.

(** [Math.floor]: a number without a fractional part (the infinities,
    the zeros and NaN among them) is returned as it is; of another, the
    bits below the binary point are dropped, and a negative one goes
    down to the next integer. *)
Definition Math_floor (x : float) : float :=
  match Prim2SF x with
  | S754_finite s m (Zneg p) =>
      let q := Z.shiftr (Zpos m) (Zpos p) in
      if Z.land (Zpos m) (Z.ones (Zpos p)) =? 0 then x
      else if s then SF2Prim (binary_normalize prec emax (- (q + 1)) 0 false)
      else SF2Prim (binary_normalize prec emax q 0 false)
  | _ => x
  end.

(** typeforce's [UInt53] and the [Satoshi] of bitcoinjs-lib: the type
    of an output value. *)
Definition UINT53_MAX : float := 9007199254740991%float.
Definition SATOSHI_MAX : float := (21 * 100000000000000)%float.

Definition UInt53 (value : float) : bool :=
  (0 <=? value)%float && (value <=? UINT53_MAX)%float && (Math_floor value =? value)%float.

Definition Satoshi (value : float) : bool :=
  UInt53 value && (value <=? SATOSHI_MAX)%float.

(** ** Bytes *)

Definition byte_to_Z (b : byte) : Z := Z.of_N (Byte.to_N b).
Definition byte_of_Z (z : Z) : byte :=
  match Byte.of_N (Z.to_N (z mod 256)) with
  | Some b => b
  | None => "000"%byte
  end.

Module SHA256.

Definition mask32 : Z := 0xFFFFFFFF.
Definition add32 (x y : Z) : Z := Z.land (x + y) mask32.
Definition rotr (n x : Z) : Z :=
  Z.lor (Z.shiftr x n) (Z.land (Z.shiftl x (32 - n)) mask32).

Definition Ch (e f g : Z) : Z := Z.lxor (Z.land e f) (Z.land (Z.lxor e mask32) g).
Definition Maj (a b c : Z) : Z :=
  Z.lxor (Z.land a b) (Z.lxor (Z.land a c) (Z.land b c)).
Definition Sum0 (a : Z) : Z := Z.lxor (rotr 2 a) (Z.lxor (rotr 13 a) (rotr 22 a)).
Definition Sum1 (e : Z) : Z := Z.lxor (rotr 6 e) (Z.lxor (rotr 11 e) (rotr 25 e)).
Definition sig0 (w : Z) : Z := Z.lxor (rotr 7 w) (Z.lxor (rotr 18 w) (Z.shiftr w 3)).
Definition sig1 (w : Z) : Z := Z.lxor (rotr 17 w) (Z.lxor (rotr 19 w) (Z.shiftr w 10)).

Definition round_constants : list Z :=
  [ 0x428A2F98; 0x71374491; 0xB5C0FBCF; 0xE9B5DBA5;
    0x3956C25B; 0x59F111F1; 0x923F82A4; 0xAB1C5ED5;
    0xD807AA98; 0x12835B01; 0x243185BE; 0x550C7DC3;
    0x72BE5D74; 0x80DEB1FE; 0x9BDC06A7; 0xC19BF174;
    0xE49B69C1; 0xEFBE4786; 0x0FC19DC6; 0x240CA1CC;
    0x2DE92C6F; 0x4A7484AA; 0x5CB0A9DC; 0x76F988DA;
    0x983E5152; 0xA831C66D; 0xB00327C8; 0xBF597FC7;
    0xC6E00BF3; 0xD5A79147; 0x06CA6351; 0x14292967;
    0x27B70A85; 0x2E1B2138; 0x4D2C6DFC; 0x53380D13;
    0x650A7354; 0x766A0ABB; 0x81C2C92E; 0x92722C85;
    0xA2BFE8A1; 0xA81A664B; 0xC24B8B70; 0xC76C51A3;
    0xD192E819; 0xD6990624; 0xF40E3585; 0x106AA070;
    0x19A4C116; 0x1E376C08; 0x2748774C; 0x34B0BCB5;
    0x391C0CB3; 0x4ED8AA4A; 0x5B9CCA4F; 0x682E6FF3;
    0x748F82EE; 0x78A5636F; 0x84C87814; 0x8CC70208;
    0x90BEFFFA; 0xA4506CEB; 0xBEF9A3F7; 0xC67178F2 ].

(** The eight working words. *)
Record State := {
  ha : Z; hb : Z; hc : Z; hd : Z; he : Z; hf : Z; hg : Z; hh : Z
}.

Definition initial : State :=
  {| ha := 0x6A09E667; hb := 0xBB67AE85; hc := 0x3C6EF372; hd := 0xA54FF53A;
     he := 0x510E527F; hf := 0x9B05688C; hg := 0x1F83D9AB; hh := 0x5BE0CD19 |}.

Definition round (s : State) (kw : Z * Z) : State :=
  let t1 := add32 (add32 (add32 (hh s) (Sum1 (he s))) (Ch (he s) (hf s) (hg s)))
                  (add32 (fst kw) (snd kw)) in
  let t2 := add32 (Sum0 (ha s)) (Maj (ha s) (hb s) (hc s)) in
  {| ha := add32 t1 t2; hb := ha s; hc := hb s; hd := hc s;
     he := add32 (hd s) t1; hf := he s; hg := hf s; hh := hg s |}.

(** Big-endian 32-bit words of a byte list (a trailing partial word is
    dropped; padded messages have none). *)
Fixpoint words (bs : list byte) : list Z :=
  match bs with
  | b3 :: b2 :: b1 :: b0 :: rest =>
      (byte_to_Z b3 * 16777216 + byte_to_Z b2 * 65536 + byte_to_Z b1 * 256 + byte_to_Z b0)
        :: words rest
  | _ => []
  end.

Definition word_bytes (w : Z) : list byte :=
  [ byte_of_Z (Z.shiftr w 24); byte_of_Z (Z.shiftr w 16);
    byte_of_Z (Z.shiftr w 8); byte_of_Z w ].

(** Message schedule, most recent word first. *)
Fixpoint extend (n : nat) (ws : list Z) : list Z :=
  match n with
  | O => ws
  | S n' =>
      let w := add32 (add32 (sig1 (nth 1 ws 0)) (nth 6 ws 0))
                     (add32 (sig0 (nth 14 ws 0)) (nth 15 ws 0)) in
      extend n' (w :: ws)
  end.

Definition schedule (block : list byte) : list Z :=
  rev (extend 48 (rev (words block))).

Definition compress (s : State) (block : list byte) : State :=
  let r := fold_left round (combine round_constants (schedule block)) s in
  {| ha := add32 (ha s) (ha r); hb := add32 (hb s) (hb r);
     hc := add32 (hc s) (hc r); hd := add32 (hd s) (hd r);
     he := add32 (he s) (he r); hf := add32 (hf s) (hf r);
     hg := add32 (hg s) (hg r); hh := add32 (hh s) (hh r) |}.

Definition pad (m : list byte) : list byte :=
  let len := Z.of_nat (length m) in
  m ++ ["128"%byte] ++ replicate (Z.to_nat ((- (len + 9)) mod 64)) "000"%byte
    ++ word_bytes (Z.shiftr (8 * len) 32) ++ word_bytes (8 * len).

Fixpoint blocks (n : nat) (bs : list byte) : list (list byte) :=
  match n with
  | O => []
  | S n' => take 64 bs :: blocks n' (drop 64 bs)
  end.

Definition digest (s : State) : list byte :=
  word_bytes (ha s) ++ word_bytes (hb s) ++ word_bytes (hc s) ++ word_bytes (hd s)
  ++ word_bytes (he s) ++ word_bytes (hf s) ++ word_bytes (hg s) ++ word_bytes (hh s).

Definition hash (m : list byte) : list byte :=
  let p := pad m in
  digest (fold_left compress (blocks (length p / 64) p) initial).

End SHA256.

Module RIPEMD160.

Definition mask32 : Z := 0xFFFFFFFF.
Definition add32 (x y : Z) : Z := Z.land (x + y) mask32.
Definition rol (n x : Z) : Z :=
  Z.lor (Z.land (Z.shiftl x n) mask32) (Z.shiftr x (32 - n)).
Definition neg32 (x : Z) : Z := Z.lxor x mask32.

(** The five round functions, by round number. *)
Definition f (j : nat) (x y z : Z) : Z :=
  match j with
  | 0%nat => Z.lxor x (Z.lxor y z)
  | 1%nat => Z.lor (Z.land x y) (Z.land (neg32 x) z)
  | 2%nat => Z.lxor (Z.lor x (neg32 y)) z
  | 3%nat => Z.lor (Z.land x z) (Z.land y (neg32 z))
  | _ => Z.lxor x (Z.lor y (neg32 z))
  end.

Definition K_left : list Z := [ 0; 0x5A827999; 0x6ED9EBA1; 0x8F1BBCDC; 0xA953FD4E ].
Definition K_right : list Z := [ 0x50A28BE6; 0x5C4DD124; 0x6D703EF3; 0x7A6D76E9; 0 ].

Definition r_left : list nat :=
  [ 0; 1; 2; 3; 4; 5; 6; 7; 8; 9; 10; 11; 12; 13; 14; 15;
    7; 4; 13; 1; 10; 6; 15; 3; 12; 0; 9; 5; 2; 14; 11; 8;
    3; 10; 14; 4; 9; 15; 8; 1; 2; 7; 0; 6; 13; 11; 5; 12;
    1; 9; 11; 10; 0; 8; 12; 4; 13; 3; 7; 15; 14; 5; 6; 2;
    4; 0; 5; 9; 7; 12; 2; 10; 14; 1; 3; 8; 11; 6; 15; 13 ]%nat.

Definition r_right : list nat :=
  [ 5; 14; 7; 0; 9; 2; 11; 4; 13; 6; 15; 8; 1; 10; 3; 12;
    6; 11; 3; 7; 0; 13; 5; 10; 14; 15; 8; 12; 4; 9; 1; 2;
    15; 5; 1; 3; 7; 14; 6; 9; 11; 8; 12; 2; 10; 0; 4; 13;
    8; 6; 4; 1; 3; 11; 15; 0; 5; 12; 2; 13; 9; 7; 10; 14;
    12; 15; 10; 4; 1; 5; 8; 7; 6; 2; 13; 14; 0; 3; 9; 11 ]%nat.

Definition s_left : list Z :=
  [ 11; 14; 15; 12; 5; 8; 7; 9; 11; 13; 14; 15; 6; 7; 9; 8;
    7; 6; 8; 13; 11; 9; 7; 15; 7; 12; 15; 9; 11; 7; 13; 12;
    11; 13; 6; 7; 14; 9; 13; 15; 14; 8; 13; 6; 5; 12; 7; 5;
    11; 12; 14; 15; 14; 15; 9; 8; 9; 14; 5; 6; 8; 6; 5; 12;
    9; 15; 5; 11; 6; 8; 13; 12; 5; 12; 13; 14; 11; 8; 5; 6 ].

Definition s_right : list Z :=
  [ 8; 9; 9; 11; 13; 15; 15; 5; 7; 7; 8; 11; 14; 14; 12; 6;
    9; 13; 15; 7; 12; 8; 9; 11; 7; 7; 12; 7; 6; 15; 13; 11;
    9; 7; 15; 11; 8; 6; 6; 14; 12; 13; 5; 14; 13; 13; 7; 5;
    15; 5; 8; 11; 14; 14; 6; 14; 6; 9; 12; 9; 12; 5; 15; 8;
    8; 5; 12; 9; 12; 5; 14; 6; 8; 13; 6; 5; 15; 13; 11; 11 ].

Record Line := { la : Z; lb : Z; lc : Z; ld : Z; le : Z }.

Definition initial : Line :=
  {| la := 0x67452301; lb := 0xEFCDAB89; lc := 0x98BADCFE;
     ld := 0x10325476; le := 0xC3D2E1F0 |}.

(** One step of a line: [fj] is the round function index, [x] the
    message word, [k] the constant, [s] the rotation. *)
Definition step (l : Line) (fj : nat) (x k s : Z) : Line :=
  let t := add32 (rol s (add32 (add32 (la l) (f fj (lb l) (lc l) (ld l))) (add32 x k)))
                 (le l) in
  {| la := le l; lb := t; lc := lb l; ld := rol 10 (lc l); le := ld l |}.

(** Little-endian 32-bit words. *)
Fixpoint words (bs : list byte) : list Z :=
  match bs with
  | b0 :: b1 :: b2 :: b3 :: rest =>
      (byte_to_Z b0 + byte_to_Z b1 * 256 + byte_to_Z b2 * 65536 + byte_to_Z b3 * 16777216)
        :: words rest
  | _ => []
  end.

Definition word_bytes (w : Z) : list byte :=
  [ byte_of_Z w; byte_of_Z (Z.shiftr w 8);
    byte_of_Z (Z.shiftr w 16); byte_of_Z (Z.shiftr w 24) ].

Definition run_line (left : bool) (X : list Z) (l : Line) : Line :=
  fold_left
    (fun l j =>
       let fj := if left then (j / 16)%nat else (4 - j / 16)%nat in
       step l fj
         (nth (nth j (if left then r_left else r_right) 0%nat) X 0)
         (nth (j / 16) (if left then K_left else K_right) 0)
         (nth j (if left then s_left else s_right) 0))
    (seq 0 80) l.

Definition compress (h : Line) (block : list byte) : Line :=
  let X := words block in
  let l := run_line true X h in
  let r := run_line false X h in
  {| la := add32 (add32 (lb h) (lc l)) (ld r);
     lb := add32 (add32 (lc h) (ld l)) (le r);
     lc := add32 (add32 (ld h) (le l)) (la r);
     ld := add32 (add32 (le h) (la l)) (lb r);
     le := add32 (add32 (la h) (lb l)) (lc r) |}.

Definition pad (m : list byte) : list byte :=
  let len := Z.of_nat (length m) in
  m ++ ["128"%byte] ++ replicate (Z.to_nat ((- (len + 9)) mod 64)) "000"%byte
    ++ word_bytes (8 * len) ++ word_bytes (Z.shiftr (8 * len) 32).

Definition digest (h : Line) : list byte :=
  word_bytes (la h) ++ word_bytes (lb h) ++ word_bytes (lc h)
  ++ word_bytes (ld h) ++ word_bytes (le h).

Definition hash (m : list byte) : list byte :=
  let p := pad m in
  digest (fold_left compress (SHA256.blocks (length p / 64) p) initial).

End RIPEMD160.


(** ** Hash functions and keys of bitcoinjs-lib *)

Definition sha256 (b : list byte) : list byte := SHA256.hash b.
Definition ripemd160 (b : list byte) : list byte := RIPEMD160.hash b.

(** Big-endian value of a byte list, and the big-endian bytes of a
    number on [n] bytes. *)
Definition be_value (bs : list byte) : Z :=
  fold_left (fun acc b => acc * 256 + byte_to_Z b) bs 0.

Fixpoint be_bytes (n : nat) (v : Z) : list byte :=
  match n with
  | O => []
  | S n' => be_bytes n' (v / 256) ++ [byte_of_Z v]
  end.

Module Secp256k1.

Definition p : Z := 2 ^ 256 - 2 ^ 32 - 977.
Definition n : Z :=
  0xFFFFFFFFFFFFFFFFFFFFFFFFFFFFFFFEBAAEDCE6AF48A03BBFD25E8CD0364141.
Definition Gx : Z :=
  0x79BE667EF9DCBBAC55A06295CE870B07029BFCDB2DCE28D959F2815B16F81798.
Definition Gy : Z :=
  0x483ADA7726A3C4655DA4FBFC0E1108A8FD17B448A68554199C47D08FFB10D4B8.

(** A point in Jacobian coordinates; [jz = 0] is the point at infinity. *)
Record Point := { jx : Z; jy : Z; jz : Z }.

Definition G : Point := {| jx := Gx; jy := Gy; jz := 1 |}.
Definition infinity : Point := {| jx := 1; jy := 1; jz := 0 |}.

Definition double (P : Point) : Point :=
  if jy P =? 0 then infinity else
  let yy := jy P * jy P mod p in
  let s := 4 * jx P * yy mod p in
  let m := 3 * jx P * jx P mod p in
  let x := (m * m - 2 * s) mod p in
  {| jx := x;
     jy := (m * (s - x) - 8 * yy * yy) mod p;
     jz := 2 * jy P * jz P mod p |}.

Definition add (P Q : Point) : Point :=
  if jz P =? 0 then Q else
  if jz Q =? 0 then P else
  let z1z1 := jz P * jz P mod p in
  let z2z2 := jz Q * jz Q mod p in
  let u1 := jx P * z2z2 mod p in
  let u2 := jx Q * z1z1 mod p in
  let s1 := jy P * jz Q mod p * z2z2 mod p in
  let s2 := jy Q * jz P mod p * z1z1 mod p in
  if u1 =? u2 then (if s1 =? s2 then double P else infinity) else
  let h := (u2 - u1) mod p in
  let r := (s2 - s1) mod p in
  let hh := h * h mod p in
  let hhh := h * hh mod p in
  let v := u1 * hh mod p in
  let x := (r * r - hhh - 2 * v) mod p in
  {| jx := x;
     jy := (r * (v - x) - s1 * hhh) mod p;
     jz := h * jz P mod p * jz Q mod p |}.

Fixpoint mul (k : positive) (P : Point) : Point :=
  match k with
  | xH => P
  | xO k' => double (mul k' P)
  | xI k' => add (double (mul k' P)) P
  end.

Fixpoint pow_mod (a : Z) (e : positive) : Z :=
  match e with
  | xH => a mod p
  | xO e' => let r := pow_mod a e' in r * r mod p
  | xI e' => let r := pow_mod a e' in r * r mod p * a mod p
  end.

Definition inv (a : Z) : Z := pow_mod a (Z.to_pos (p - 2)).

(** Affine coordinates of a point other than infinity. *)
Definition affine (P : Point) : Z * Z :=
  let zi := inv (jz P) in
  let zi2 := zi * zi mod p in
  (jx P * zi2 mod p, jy P * zi2 mod p * zi mod p).

(** [ecc.isPrivate]: a 32-byte scalar in [1, n). *)
Definition isPrivate (d : list byte) : bool :=
  (length d =? 32)%nat && (0 <? be_value d) && (be_value d <? n).

(** [ecc.pointFromScalar(d, true)]: the compressed encoding of [d * G]. *)
Definition pointFromScalar (d : list byte) : list byte :=
  let '(x, y) := affine (mul (Z.to_pos (be_value d)) G) in
  byte_of_Z (2 + y mod 2) :: be_bytes 32 x.

End Secp256k1.

Module Base58.

Definition alphabet : string :=
  "123456789ABCDEFGHJKLMNPQRSTUVWXYZabcdefghijkmnopqrstuvwxyz".

Definition digit (d : Z) : ascii :=
  match String.get (Z.to_nat d) alphabet with
  | Some c => c
  | None => "1"%char
  end.

(** The base-58 digits of [v], most significant first; [fuel] bounds
    their number. *)
Fixpoint digits (fuel : nat) (v : Z) (acc : string) : string :=
  match fuel with
  | O => acc
  | S fuel' =>
      if v =? 0 then acc else digits fuel' (v / 58) (String (digit (v mod 58)) acc)
  end.

Fixpoint leading_zeros (bs : list byte) : string :=
  match bs with
  | b :: rest => if byte_to_Z b =? 0 then String "1" (leading_zeros rest) else ""
  | [] => ""
  end.

Definition encode (bs : list byte) : string :=
  leading_zeros bs +:+ digits (2 * length bs) (be_value bs) "".

(** The place of a character in the alphabet. *)
Fixpoint index_of (c : ascii) (s : string) (i : Z) : option Z :=
  match s with
  | String c' rest => if Ascii.eqb c c' then Some i else index_of c rest (i + 1)
  | EmptyString => None
  end.

(** The number a string of base-58 digits stands for; a character
    outside the alphabet gives none. *)
Fixpoint value (s : string) (acc : Z) : option Z :=
  match s with
  | String c rest =>
      match index_of c alphabet 0 with
      | Some d => value rest (acc * 58 + d)
      | None => None
      end
  | EmptyString => Some acc
  end.

Fixpoint leading_ones (s : string) : nat :=
  match s with
  | String c rest => if Ascii.eqb c "1" then S (leading_ones rest) else O
  | EmptyString => O
  end.

(** The bytes of [v], most significant first, none for 0. *)
Definition bytes_of (v : Z) : list byte :=
  if v =? 0 then [] else be_bytes (Z.to_nat (Z.log2 v / 8 + 1)) v.

Definition decode (s : string) : option (list byte) :=
  match value s 0 with
  | Some v => Some (replicate (leading_ones s) "000"%byte ++ bytes_of v)
  | None => None
  end.

End Base58.

(** [bs58check.encode]: payload, then the first four bytes of its
    double SHA-256. *)
Definition bs58check_encode (payload : list byte) : string :=
  Base58.encode (payload ++ take 4 (sha256 (sha256 payload))).

Fixpoint Buffer_equals (a b : list byte) : bool :=
  match a, b with
  | [], [] => true
  | x :: a', y :: b' => Byte.eqb x y && Buffer_equals a' b'
  | _, _ => false
  end.

(** [bs58check.decode]: the payload of a base-58 string whose last
    four bytes are the checksum of those before them. *)
Definition bs58check_decode (s : string) : option (list byte) :=
  match Base58.decode s with
  | Some buffer =>
      let payload := take (length buffer - 4) buffer in
      let checksum := drop (length buffer - 4) buffer in
      if Buffer_equals checksum (take 4 (sha256 (sha256 payload)))
      then Some payload else None
  | None => None
  end.

Definition hash160 (b : list byte) : list byte := ripemd160 (sha256 b).

Definition p2pkh_address (pubkey : list byte) (version : Z) : string :=
  bs58check_encode (byte_of_Z version :: hash160 pubkey).

(** [address.fromBase58Check]: the version byte and the 20-byte hash
    of an address. *)
Definition fromBase58Check (address : string) : option (Z * list byte) :=
  match bs58check_decode address with
  | Some (version :: hash) =>
      if (length hash =? 20)%nat then Some (byte_to_Z version, hash) else None
  | _ => None
  end.

(** Whether [address.toOutputScript(address, network)] finds a script:
    the address is a Base58Check one with the version of the network's
    public-key hashes or of its script hashes. *)
Definition has_matching_Script (address : string) (net : Network) : bool :=
  match fromBase58Check address with
  | Some (version, _) => (version =? pubKeyHash net) || (version =? scriptHash net)
  | None => false
  end.

Arguments sha256 : simpl never.
Arguments ripemd160 : simpl never.
Arguments Secp256k1.pointFromScalar : simpl never.
Arguments p2pkh_address : simpl never.

(** ** Buffers and strings *)

Definition hex_digit (n : Z) : ascii :=
  match String.get (Z.to_nat n) "0123456789abcdef" with
  | Some c => c
  | None => "0"%char
  end.

Definition byte_hex (b : byte) : string :=
  String (hex_digit (byte_to_Z b / 16)) (String (hex_digit (byte_to_Z b mod 16)) "").

(** [buffer.toString('hex')] *)
Fixpoint toString_hex (bs : list byte) : string :=
  match bs with
  | [] => ""
  | b :: rest => byte_hex b +:+ toString_hex rest
  end.

Definition hex_value (c : ascii) : option Z :=
  let v := Z.of_nat (nat_of_ascii c) in
  if (48 <=? v) && (v <=? 57) then Some (v - 48)
  else if (97 <=? v) && (v <=? 102) then Some (v - 87)
  else if (65 <=? v) && (v <=? 70) then Some (v - 55)
  else None.

(** [Buffer.from(s, 'hex')]: pairs of hex digits, up to the first pair
    that is not one. *)
Fixpoint Buffer_from_hex (s : string) : list byte :=
  match s with
  | String c1 (String c2 rest) =>
      match hex_value c1, hex_value c2 with
      | Some h, Some l => byte_of_Z (16 * h + l) :: Buffer_from_hex rest
      | _, _ => []
      end
  | _ => []
  end.

(** [Buffer.from(s)]: the bytes of the string. *)
Definition Buffer_from (s : string) : list byte := list_byte_of_string s.

Definition is_line_terminator (c : ascii) : bool :=
  (nat_of_ascii c =? 10)%nat || (nat_of_ascii c =? 13)%nat.

(** The matches of [/.{2}/g], left to right: [.] is any character but a
    line terminator, and a failed attempt resumes one character on. *)
Fixpoint matches_dot2 (s : string) : list string :=
  match s with
  | String c1 ((String c2 rest') as rest) =>
      if is_line_terminator c1 || is_line_terminator c2 then matches_dot2 rest
      else String c1 (String c2 "") :: matches_dot2 rest'
  | _ => []
  end.

(** [s.match(/.{2}/g)]: [null] when nothing matches. *)
Definition String_match_dot2 (s : string) : option (list string) :=
  match matches_dot2 s with
  | [] => None
  | l => Some l
  end.

(** [a.join('')] *)
Definition Array_join (a : list string) : string := String.concat "" a.

(** ** The key pair *)

Record KeyPair := {
  privateKey : list byte;
  publicKey : list byte;
  kp_network : Network
}.

Definition crypto_sha256 (b : list byte) : list byte := sha256 b.

(** [bitcoin.ECPair.fromPrivateKey(buffer, { network })] *)
Definition ECPair_fromPrivateKey (buffer : list byte) (net : Network) : Completion KeyPair :=
  if Secp256k1.isPrivate buffer then
    Normal {| privateKey := buffer;
              publicKey := Secp256k1.pointFromScalar buffer;
              kp_network := net |}
  else Throw (TypeError "Private key not in range [1, n)").

(** [bitcoin.payments.p2pkh({ pubkey, network }).address] *)
Definition payments_p2pkh_address (pubkey : list byte) (net : Network) : string :=
  p2pkh_address pubkey (pubKeyHash net).

(** ** The transaction builder *)

(** One entry of the [/addr/<address>/utxo] reply.  The file reads
    [txid] and [amount]; [vout] stands for the output index the indexer
    reports, which the file never reads. *)
Record Unspent := {
  txid : string;
  amount : float;
  vout : nat
}.

Record TxInput := {
  prev_txid : string;
  prev_index : nat;
  signed_with : option KeyPair
}.

Record TxOutput := {
  out_address : string;
  out_value : float
}.

Record TransactionBuilder := {
  tb_network : Network;
  tb_version : Z;
  tb_inputs : list TxInput;
  tb_outputs : list TxOutput
}.

Definition TransactionBuilder_new (net : Network) : TransactionBuilder :=
  {| tb_network := net; tb_version := 2; tb_inputs := []; tb_outputs := [] |}.

Definition setVersion (v : Z) (txb : TransactionBuilder) : TransactionBuilder :=
  {| tb_network := tb_network txb; tb_version := v;
     tb_inputs := tb_inputs txb; tb_outputs := tb_outputs txb |}.

(** The hash a transaction id given in hex stands for: its bytes in
    reverse order. *)
Definition txHash_of (txid : string) : list byte := reverse (Buffer_from_hex txid).

Definition isCoinbaseHash (hash : list byte) : bool :=
  forallb (fun b => byte_to_Z b =? 0) hash.

(** The key under which the builder remembers a previous output. *)
Definition prevTxOut (txid : string) (index : nat) : string * nat :=
  (toString_hex (txHash_of txid), index).

Definition same_prevTxOut (a b : string * nat) : bool :=
  String.eqb (fst a) (fst b) && (snd a =? snd b)%nat.

(** [txb.addInput(txHash, vout)] with a transaction id in hex. *)
Definition addInput (txHash : string) (index : nat) (txb : TransactionBuilder)
  : Completion TransactionBuilder :=
  let hash := txHash_of txHash in
  if negb (length hash =? 32)%nat then Throw (Rejected "Hash256bit")
  else if isCoinbaseHash hash then Throw (Rejected "isCoinbaseHash")
  else if existsb (fun i => same_prevTxOut (prevTxOut (prev_txid i) (prev_index i))
                                           (prevTxOut txHash index)) (tb_inputs txb)
  then Throw (Rejected "Duplicate TxOut")
  else
    Normal {| tb_network := tb_network txb; tb_version := tb_version txb;
              tb_inputs := tb_inputs txb ++ [ {| prev_txid := txHash; prev_index := index;
                                                 signed_with := None |} ];
              tb_outputs := tb_outputs txb |}.

(** [txb.addOutput(address, value)]: the address is turned into its
    script, then the value is checked. *)
Definition addOutput (addr : string) (value : float) (txb : TransactionBuilder)
  : Completion TransactionBuilder :=
  if negb (has_matching_Script addr (tb_network txb))
  then Throw (Rejected "toOutputScript")
  else if negb (Satoshi value) then Throw (Rejected "Satoshi")
  else
    Normal {| tb_network := tb_network txb; tb_version := tb_version txb;
              tb_inputs := tb_inputs txb;
              tb_outputs := tb_outputs txb
                              ++ [ {| out_address := addr; out_value := value |} ] |}.

Definition sign_input (kp : KeyPair) (i : TxInput) : TxInput :=
  {| prev_txid := prev_txid i; prev_index := prev_index i; signed_with := Some kp |}.

(** [txb.sign(vin, keyPair)] *)
Definition sign (vin : nat) (kp : KeyPair) (txb : TransactionBuilder)
  : Completion TransactionBuilder :=
  if negb (bool_decide (kp_network kp = tb_network txb))
  then Throw (TypeError "Inconsistent network")
  else
    match tb_inputs txb !! vin with
    | None => Throw (Rejected "No input at index")
    | Some _ =>
        Normal {| tb_network := tb_network txb; tb_version := tb_version txb;
                  tb_inputs := alter (sign_input kp) vin (tb_inputs txb);
                  tb_outputs := tb_outputs txb |}
    end.

Definition is_signed (i : TxInput) : bool :=
  match signed_with i with
  | Some _ => true
  | None => false
  end.

(** [txb.build()]: the transaction, which the builder's own record
    stands for. *)
Definition build (txb : TransactionBuilder) : Completion TransactionBuilder :=
  match tb_inputs txb, tb_outputs txb with
  | [], _ => Throw (Rejected "Transaction has no inputs")
  | _, [] => Throw (Rejected "Transaction has no outputs")
  | _, _ =>
      if forallb is_signed (tb_inputs txb) then Normal txb
      else Throw (Rejected "Transaction is not complete")
  end.

(** ** [_buildTransaction]: the locals of the function *)

Record Locals := {
  txb : TransactionBuilder;
  transferAmount : float;
  inputs : nat
}.

(** The body of the [unspents.forEach] callback. *)
Definition forEach_body (target : float) (l : Locals) (tx : Unspent) : Completion Locals :=
  let amount := Math_floor (amount tx * MULTIPLIER)%float in
  if (transferAmount l <? target)%float then
    txb' ← addInput (txid tx) (inputs l) (txb l);
    Normal {| txb := txb';
              transferAmount := (transferAmount l + amount)%float;
              inputs := S (inputs l) |}
  else Normal l.

(** Line 85: [(amount + TX_FEE) * MULTIPLIER]. *)
Definition target_of (amount : float) : float := ((amount + TX_FEE) * MULTIPLIER)%float.

(** Lines 82-95: the locals when [unspents.forEach] returns. *)
Definition forEach_unspents (target : float) (unspents : list Unspent) : Completion Locals :=
  forEach (forEach_body target) unspents
    {| txb := setVersion 1 (TransactionBuilder_new network);
       transferAmount := 0%float; inputs := 0%nat |}.

(** ** Property access on [this._clients] *)

(** The value of [axios.create({ baseURL })]. *)
Record AxiosInstance := { baseURL : string }.

Definition axios_create (url : string) : AxiosInstance := {| baseURL := url |}.

(** What [o[key]] can evaluate to for the objects kept in [_clients]:
    [Zero] is the number 0, the [length] of the function an axios
    instance is. *)
Inductive Value :=
| Undefined
| Zero
| Builtin (property : string)
| Client (c : AxiosInstance).

Definition Object_prototype : list string :=
  [ "constructor"; "__proto__"; "hasOwnProperty"; "isPrototypeOf";
    "propertyIsEnumerable"; "toLocaleString"; "toString"; "valueOf";
    "__defineGetter__"; "__defineSetter__"; "__lookupGetter__";
    "__lookupSetter__" ]%string.

Definition Function_prototype : list string :=
  [ "apply"; "bind"; "call"; "arguments"; "caller"; "length"; "name" ]%string.

Definition AxiosInstance_own : list string :=
  [ "request"; "getUri"; "delete"; "get"; "head"; "options"; "post"; "put";
    "patch"; "defaults"; "interceptors"; "prototype" ]%string.

(** The names under which an axios instance has a property, its own or
    inherited. *)
Definition AxiosInstance_properties : list string :=
  AxiosInstance_own ++ Function_prototype ++ Object_prototype.

(** [this._clients] holds either a plain object (created by [{ }], meant
    to map an endpoint URL to its client) or, after line 126, an axios
    instance. *)
Inductive Clients :=
| PlainObject (own : gmap string AxiosInstance)
| Instance (c : AxiosInstance).

Definition get_property (o : Clients) (key : string) : Value :=
  match o with
  | PlainObject own =>
      match own !! key with
      | Some c => Client c
      | None => if bool_decide (key ∈ Object_prototype) then Builtin key else Undefined
      end
  | Instance _ =>
      if String.eqb key "length" then Zero
      else if bool_decide (key ∈ AxiosInstance_properties) then Builtin key else Undefined
  end.

(** JavaScript truthiness of a [Value]: functions and objects are
    truthy, [undefined] and 0 are not. *)
Definition truthy (v : Value) : bool :=
  match v with
  | Undefined | Zero => false
  | _ => true
  end.

(** ** The wallet object *)

Record DogeApi := {
  _keyPair : KeyPair;
  _address : string;
  _clients : Clients
}.

Definition set_clients (c : Clients) (this : DogeApi) : DogeApi :=
  {| _keyPair := _keyPair this; _address := _address this; _clients := c |}.

(** Lines 24-29. *)
Definition DogeApi_new (passphrase : string) : Completion DogeApi :=
  let pwHash := crypto_sha256 (Buffer_from passphrase) in
  keyPair ← ECPair_fromPrivateKey pwHash network;
  Normal {| _keyPair := keyPair;
            _address := payments_p2pkh_address (publicKey keyPair) network;
            _clients := PlainObject ∅ |}.

(** [get address ()] *)
Definition DogeApi_address (this : DogeApi) : string := _address this.

(** Lines 81-104, up to [txb.build()]: the transaction built. *)
Definition _buildTransaction_txb (this : DogeApi) (address : string) (amount : float)
    (unspents : list Unspent) : Completion TransactionBuilder :=
  let target := target_of amount in
  l ← forEach_unspents target unspents;
  txb ← addOutput address amount (txb l);
  txb ← addOutput (_address this) (transferAmount l - target)%float txb;
  txb ← forEach (fun txb i => sign i (_keyPair this) txb) (seq 0 (inputs l)) txb;
  build txb.

(** ** The endpoint client *)

Inductive Method := GET | POST.

Record Request := {
  req_client : AxiosInstance;
  req_method : Method;
  req_url : string;
  req_data : list (string * string)
}.

(** [_getClient], with [url] the value of [getEnpointUrl(Cryptos.DOGE)]. *)
Definition _getClient (url : string) (this : DogeApi) : Value * DogeApi :=
  let this :=
    if negb (truthy (get_property (_clients this) url))
    then set_clients (Instance (axios_create url)) this
    else this in
  (get_property (_clients this) url, this).

(** [client.get(url, params)] and [client.post(url, fd)]: the request
    issued, or the [TypeError] of calling a method of a value that has
    none. *)
Definition call_method (client : Value) (m : Method) (url : string)
    (data : list (string * string)) : Completion Request :=
  match client with
  | Client c => Normal {| req_client := c; req_method := m; req_url := url; req_data := data |}
  | Undefined => Throw (TypeError "Cannot read property of undefined")
  | Zero | Builtin _ => Throw (TypeError "not a function")
  end.

Definition _get (endpoint url : string) (params : list (string * string)) (this : DogeApi)
  : Completion Request * DogeApi :=
  let '(client, this) := _getClient endpoint this in
  (call_method client GET url params, this).

Definition _post (endpoint url : string) (data : list (string * string)) (this : DogeApi)
  : Completion Request * DogeApi :=
  let fd := fold_left (fun form kv => form ++ [kv]) data [] in
  let '(client, this) := _getClient endpoint this in
  (call_method client POST url fd, this).

(** ** [createTransaction] *)

(** Line 52: the amount handed on to [_buildTransaction], for an
    [amount] that is a number. *)
Definition createTransaction_amount (amount : float) : float :=
  Math_floor (amount * MULTIPLIER)%float.

(** Lines 58-60. *)
Definition createTransaction_txid (hex : string) : Completion string :=
  let txid := crypto_sha256 (Buffer_from_hex hex) in
  let txid := crypto_sha256 txid in
  match String_match_dot2 (toString_hex txid) with
  | Some pairs => Normal (Array_join (reverse pairs))
  | None => Throw (TypeError "Cannot read property 'reverse' of null")
  end.

(** The value [createTransaction] resolves to. *)
Module Result.
Record t := { hex : string; txid : string }.
End Result.

Section Serialization.

(** [txb.build().toBuffer()]: the wire encoding bitcoinjs-lib gives the
    built transaction, signature scripts included. *)
Variable toBuffer : TransactionBuilder -> list byte.

(** Lines 81-105. *)
Definition _buildTransaction (this : DogeApi) (address : string) (amount : float)
    (unspents : list Unspent) : Completion string :=
  txb ← _buildTransaction_txb this address amount unspents;
  Normal (toString_hex (toBuffer txb)).

(** Lines 55-63: the callback run on the reply of the indexer. *)
Definition createTransaction_then (this : DogeApi) (address : string) (amount : float)
    (unspents : list Unspent) : Completion Result.t :=
  hex ← _buildTransaction this address amount unspents;
  txid ← createTransaction_txid hex;
  Normal {| Result.hex := hex; Result.txid := txid |}.

(** Lines 51-64, with [endpoint] the URL [getEnpointUrl] picks and
    [reply] the unspent outputs the indexer answers a request with. *)
Definition createTransaction (endpoint : string) (reply : Request -> list Unspent)
    (address : string) (amount : float) (this : DogeApi) : Completion Result.t * DogeApi :=
  let amount := createTransaction_amount amount in
  let '(request, this) :=
    _get endpoint ("/addr/" +:+ DogeApi_address this +:+ "/utxo?noCache=1") [] this in
  (req ← request; createTransaction_then this address amount (reply req), this).

End Serialization.

(** Lines 40-43 and 70-72: the requests of [getBalance] and
    [sendTransaction]. *)
Definition getBalance (endpoint : string) (this : DogeApi) : Completion Request * DogeApi :=
  _get endpoint ("/addr/" +:+ DogeApi_address this +:+ "/balance") [] this.

Definition sendTransaction (endpoint : string) (txHex : string) (this : DogeApi)
  : Completion Request * DogeApi :=
  _post endpoint "/tx/send" [("rawtx"%string, txHex)] this.

(** ** Vocabulary of the statements *)

(** Line 90: the smallest units the loop credits for one output. *)
Definition units (tx : Unspent) : float :=
  Math_floor (amount tx * MULTIPLIER)%float.

(** Line 93, repeated over a list of outputs: the total the loop has
    reached when it has added them all, each sum rounded as the loop
    rounds it. *)
Definition running_total (l : list Unspent) : float :=
  fold_left (fun total tx => (total + units tx)%float) l 0%float.

(** The input [addInput(tx.txid, i)] appends, before and after
    [sign(i, keyPair)]. *)
Definition input_of (signer : option KeyPair) (i : nat) (tx : Unspent) : TxInput :=
  {| prev_txid := txid tx; prev_index := i; signed_with := signer |}.

(** The same unspent output carrying another output index. *)
Definition with_vout (v : Unspent -> nat) (tx : Unspent) : Unspent :=
  {| txid := txid tx; amount := amount tx; vout := v tx |}.

Definition output_values (t : TransactionBuilder) : list float :=
  out_value <$> tb_outputs t.

(** The transaction [_buildTransaction] builds from the locals the
    loop has left. *)
Definition transaction_of (this : DogeApi) (address : string) (amount : float)
    (unspents : list Unspent) (l : Locals) : TransactionBuilder :=
  {| tb_network := network; tb_version := 1;
     tb_inputs := imap (input_of (Some (_keyPair this))) (take (inputs l) unspents);
     tb_outputs := [ {| out_address := address; out_value := amount |};
                     {| out_address := _address this;
                        out_value := (transferAmount l - target_of amount)%float |} ] |}.

(** The conditions under which the library lets the build go through. *)
Definition accepted (this : DogeApi) (address : string) (amount : float) (l : Locals) : Prop :=
  has_matching_Script address network = true
  /\ Satoshi amount = true
  /\ has_matching_Script (_address this) network = true
  /\ Satoshi (transferAmount l - target_of amount)%float = true
  /\ kp_network (_keyPair this) = network
  /\ (0 < inputs l)%nat.

Definition sum_values (l : list float) : float := fold_left PrimFloat.add l 0%float.

(** A transaction id the builder accepts as that of a previous
    transaction. *)
Definition accepted_txid (tx : Unspent) : Prop :=
  length (txHash_of (txid tx)) = 32%nat /\ isCoinbaseHash (txHash_of (txid tx)) = false.

(** A failure thrown by bitcoinjs-lib. *)
Definition thrown_by_library (f : Failure) : Prop :=
  (exists check, f = Rejected check) \/ f = TypeError "Inconsistent network".

(** What holds of the locals after the loop has seen [us]. *)
Record loop_invariant (target : float) (us : list Unspent) (l : Locals) : Prop := {
  inv_count : (inputs l <= length us)%nat;
  inv_total : transferAmount l = running_total (take (inputs l) us);
  inv_inputs : tb_inputs (txb l) = imap (input_of None) (take (inputs l) us);
  inv_outputs : tb_outputs (txb l) = [];
  inv_version : tb_version (txb l) = 1;
  inv_network : tb_network (txb l) = network;
  inv_below : forall i, (i < inputs l)%nat ->
                (running_total (take i us) <? target)%float = true;
  inv_reached : (inputs l < length us)%nat ->
                (transferAmount l <? target)%float = false;
  inv_accepted : Forall accepted_txid (take (inputs l) us)
}.

(** ** Rounding to binary64, in closed form *)

(** [rne m n]: [m / 2^n] rounded to an integer. *)
Definition rne (m n : Z) : Z :=
  let q := m / 2 ^ n in
  let r := m mod 2 ^ n in
  if 2 * r <? 2 ^ n then q
  else if 2 ^ n <? 2 * r then q + 1
  else if Z.even q then q else q + 1.

(** The number with mantissa [m] at exponent [E], the result of a
    rounding, in canonical form. *)
Definition finish (s : bool) (m E : Z) : spec_float :=
  if m =? 0 then S754_zero s
  else if m =? 2 ^ prec then
    if E + 1 <=? emax - prec
    then S754_finite s (Z.to_pos (2 ^ (prec - 1))) (E + 1) else S754_infinity s
  else
    if E <=? emax - prec then S754_finite s (Z.to_pos m) E else S754_infinity s.

(** The results of a rounding: a zero, a number or an infinity of the
    sign given. *)
Inductive signed (s : bool) : spec_float -> Prop :=
| signed_zero : signed s (S754_zero s)
| signed_finite m e : signed s (S754_finite s m e)
| signed_infinity : signed s (S754_infinity s).

(** ** Inputs used in the examples *)

(** The wallet the constructor builds for the passphrase ["test"]. *)
Definition test_keyPair : KeyPair :=
  {| privateKey := crypto_sha256 (Buffer_from "test");
     publicKey := Secp256k1.pointFromScalar (crypto_sha256 (Buffer_from "test"));
     kp_network := network |}.

Definition test_wallet : DogeApi :=
  {| _keyPair := test_keyPair;
     _address := payments_p2pkh_address (publicKey test_keyPair) network;
     _clients := PlainObject ∅ |}.

(** A receiver address (the one of the private key 1). *)
Definition destination : string := "DFpN6QqFfUm3gKNaxN6tNcab1FArL9cZLE".

Definition txid_aa : string :=
  "aaaaaaaaaaaaaaaaaaaaaaaaaaaaaaaaaaaaaaaaaaaaaaaaaaaaaaaaaaaaaaaa".

Definition unspent_5 : Unspent := {| txid := txid_aa; amount := 5%float; vout := 7 |}.
Definition unspent_half : Unspent := {| txid := txid_aa; amount := 0.5%float; vout := 0 |}.
Definition unspent_3 : Unspent := {| txid := txid_aa; amount := 3%float; vout := 1 |}.

(** Three unspent outputs of 0.29, 0.71 and 1 coin. *)
Definition txid_bb : string :=
  "bbbbbbbbbbbbbbbbbbbbbbbbbbbbbbbbbbbbbbbbbbbbbbbbbbbbbbbbbbbbbbbb".
Definition txid_cc : string :=
  "cccccccccccccccccccccccccccccccccccccccccccccccccccccccccccccccc".
Definition unspents_of_a_coin : list Unspent :=
  [ {| txid := txid_aa; amount := 0.29%float; vout := 0 |};
    {| txid := txid_bb; amount := 0.71%float; vout := 0 |};
    {| txid := txid_cc; amount := 1%float; vout := 0 |} ].

(** The transaction built from one unspent output of 5 coins when the
    builder is asked for 1 smallest unit. *)
Definition transaction_of_one_unit : TransactionBuilder :=
  {| tb_network := network; tb_version := 1;
     tb_inputs := [input_of (Some (_keyPair test_wallet)) 0 unspent_5];
     tb_outputs := [ {| out_address := destination; out_value := 1 |};
                     {| out_address := _address test_wallet;
                        out_value := 300000000 |} ] |}.

(** The transaction built from unspent outputs of 5, 0.5 and 3 coins
    when the builder is asked for 5 smallest units. *)
Definition transaction_of_five_units : TransactionBuilder :=
  {| tb_network := network; tb_version := 1;
     tb_inputs := imap (input_of (Some (_keyPair test_wallet)))
                    [unspent_5; unspent_half; unspent_3];
     tb_outputs := [ {| out_address := destination; out_value := 5 |};
                     {| out_address := _address test_wallet;
                        out_value := 250000000 |} ] |}.

Definition endpoint_url : string := "https://dogenode1.adamant.im".

(** ** Sequences of calls of the public methods *)

Inductive Call :=
| GetBalance (endpoint : string)
| SendTransaction (endpoint : string) (txHex : string)
| CreateTransaction (endpoint : string) (address : string) (amount : float).

(** What a call gives back: the request behind the promise of
    [getBalance] and [sendTransaction], or what [createTransaction]
    resolves to. *)
Inductive Outcome :=
| Requested (r : Completion Request)
| Resolved (r : Completion Result.t).

Definition perform (toBuffer : TransactionBuilder -> list byte)
    (reply : Request -> list Unspent) (c : Call) (this : DogeApi) : Outcome * DogeApi :=
  match c with
  | GetBalance endpoint =>
      let '(r, this) := getBalance endpoint this in (Requested r, this)
  | SendTransaction endpoint txHex =>
      let '(r, this) := sendTransaction endpoint txHex this in (Requested r, this)
  | CreateTransaction endpoint address amount =>
      let '(r, this) := createTransaction toBuffer endpoint reply address amount this in
      (Resolved r, this)
  end.

Fixpoint perform_all (toBuffer : TransactionBuilder -> list byte)
    (reply : Request -> list Unspent) (cs : list Call) (this : DogeApi)
  : list Outcome * DogeApi :=
  match cs with
  | [] => ([], this)
  | c :: cs' =>
      let '(o, this) := perform toBuffer reply c this in
      let '(os, this) := perform_all toBuffer reply cs' this in
      (o :: os, this)
  end.

(** A call that threw a [TypeError]. *)
Definition threw_TypeError (o : Outcome) : Prop :=
  exists message,
    o = Requested (Throw (TypeError message)) \/ o = Resolved (Throw (TypeError message)).

(** An instance on which no client is cached. *)
Definition no_client (this : DogeApi) : Prop :=
  forall u c, get_property (_clients this) u <> Client c.

(** The characters of [toString('hex')]. *)
Definition is_lower_hex (c : ascii) : bool :=
  existsb (Ascii.eqb c) (list_ascii_of_string "0123456789abcdef").

(** The wallet of the passphrase ["test"] with a client put in its
    cache under [endpoint_url]. *)
Definition cached_wallet : DogeApi :=
  set_clients (PlainObject {[ endpoint_url := axios_create endpoint_url ]}) test_wallet.

(** * Properties *)

(** ** The library functions on published vectors *)

Example sha256_abc :
  toString_hex (sha256 (Buffer_from "abc"))
  = "ba7816bf8f01cfea414140de5dae2223b00361a396177a9cb410ff61f20015ad".
Proof. vm_compute. reflexivity. Qed.

Example sha256_two_blocks :
  toString_hex
    (sha256 (Buffer_from "abcdbcdecdefdefgefghfghighijhijkijkljklmklmnlmnomnopnopq"))
  = "248d6a61d20638b8e5c026930c3e6039a33ce45964ff2167f6ecedd419db06c1".
Proof. vm_compute. reflexivity. Qed.

Example ripemd160_abc :
  toString_hex (ripemd160 (Buffer_from "abc"))
  = "8eb208f7e05d987a9b044a8e98c6b087f15a0bfc".
Proof. vm_compute. reflexivity. Qed.

Example ripemd160_empty :
  toString_hex (ripemd160 []) = "9c1185a5c5e9fc54612808977ee8f548b2258d31".
Proof. vm_compute. reflexivity. Qed.

Example generator_on_curve :
  (Secp256k1.Gy * Secp256k1.Gy - (Secp256k1.Gx * Secp256k1.Gx * Secp256k1.Gx + 7))
    mod Secp256k1.p = 0.
Proof. vm_compute. reflexivity. Qed.

Example pointFromScalar_one :
  toString_hex (Secp256k1.pointFromScalar (be_bytes 32 1))
  = "0279be667ef9dcbbac55a06295ce870b07029bfcdb2dce28d959f2815b16f81798".
Proof. vm_compute. reflexivity. Qed.

Example pointFromScalar_two :
  toString_hex (Secp256k1.pointFromScalar (be_bytes 32 2))
  = "02c6047f9441ed7d6d3045406e95c07cd85c778e4b8cef3ca7abac09b95c709ee5".
Proof. vm_compute. reflexivity. Qed.

Example isPrivate_bounds :
  Secp256k1.isPrivate (be_bytes 32 0) = false
  /\ Secp256k1.isPrivate (be_bytes 32 1) = true
  /\ Secp256k1.isPrivate (be_bytes 32 (Secp256k1.n - 1)) = true
  /\ Secp256k1.isPrivate (be_bytes 32 Secp256k1.n) = false
  /\ Secp256k1.isPrivate (be_bytes 31 1) = false.
Proof. vm_compute. repeat split; reflexivity. Qed.

(** The address of the private key 1, with Bitcoin's version byte and
    with the [pubKeyHash] of [network]. *)
Example p2pkh_address_one :
  p2pkh_address (Secp256k1.pointFromScalar (be_bytes 32 1)) 0
  = "1BgGZ9tcN4rm9KBzDn7KprQz87SZ26SAMH"
  /\ payments_p2pkh_address (Secp256k1.pointFromScalar (be_bytes 32 1)) network
     = destination.
Proof. vm_compute. split; reflexivity. Qed.

(** Addresses the builder finds a script for (Dogecoin addresses of
    either version whose checksum holds) and strings it finds none for:
    a Bitcoin address, a wrong checksum, a character outside the
    alphabet, the empty string. *)
Example has_matching_Script_vectors :
  (fun a => has_matching_Script a network)
    <$> [ destination; "DDnFaxRJcqnQ7aANKWcxoHqg7gpcUkgzWr"; "9rSGfPZLcyCGzY4uYEL1fkzJr6fkicS2rs";
          "1BgGZ9tcN4rm9KBzDn7KprQz87SZ26SAMH"; "DFpN6QqFfUm3gKNaxN6tNcab1FArL9cZLF";
          "DFpN6QqFfUm3gKNaxN6tNcab1FArL9cZL0"; "" ]%string
  = [ true; true; true; false; false; false; false ].
Proof. vm_compute. reflexivity. Qed.

(** ** binary64 *)

(** [Math.floor] and the products of lines 52 and 90 on numbers with
    and without a fractional part. *)
Example Math_floor_vectors :
  (Math_floor 0.5 = 0 /\ Math_floor (-0.5) = -1 /\ Math_floor (-0) = (-0)
   /\ Math_floor 4503599627370495.5 = 4503599627370495
   /\ Math_floor (-3.7) = -4 /\ Math_floor 1e300 = 1e300
   /\ Math_floor infinity = infinity /\ Math_floor 5e-324 = 0
   /\ Math_floor (0.29 * MULTIPLIER) = 28999999
   /\ Math_floor (0.71 * MULTIPLIER) = 71000000
   /\ Math_floor (5 * MULTIPLIER) = 500000000
   /\ Math_floor (0.5 * MULTIPLIER) = 50000000)%float.
Proof. vm_compute. repeat split; reflexivity. Qed.

(** The values an output can have. *)
Example Satoshi_vectors :
  Satoshi <$> [ 0; 1; 300000000; 2100000000000000; 2100000000000001; 0.5; -1;
                -250000000; -9999999600000000; nan; infinity; -0 ]%float
  = [ true; true; true; true; false; false; false; false; false; false; false; true ].
Proof. vm_compute. reflexivity. Qed.

Module Binary64.

Abbreviation emin := (SpecFloat.emin prec emax).

Lemma digits2_pos_bounds (m : positive) :
  2 ^ (Zpos (digits2_pos m) - 1) <= Zpos m < 2 ^ Zpos (digits2_pos m).
Proof.
  induction m as [m IH|m IH|]; cbn [digits2_pos].
  - rewrite Pos2Z.inj_succ.
    replace (Z.succ (Zpos (digits2_pos m)) - 1) with (Z.succ (Zpos (digits2_pos m) - 1)) by lia.
    rewrite !Z.pow_succ_r by lia. lia.
  - rewrite Pos2Z.inj_succ.
    replace (Z.succ (Zpos (digits2_pos m)) - 1) with (Z.succ (Zpos (digits2_pos m) - 1)) by lia.
    rewrite !Z.pow_succ_r by lia. lia.
  - cbn. lia.
Qed.

Lemma shr_1_m (r : shr_record) : 0 <= shr_m r -> shr_m (shr_1 r) = Z.div2 (shr_m r).
Proof.
  destruct r as [m r s]; cbn [shr_m]. intros Hm.
  destruct m as [|[p|p|]|p]; try reflexivity; lia.
Qed.

Lemma iter_shr_1_m (p : positive) : forall r : shr_record,
  0 <= shr_m r -> shr_m (SpecFloat.iter_pos shr_1 p r) = Z.shiftr (shr_m r) (Zpos p).
Proof.
  induction p as [p IH|p IH|]; intros r Hr; cbn [SpecFloat.iter_pos].
  - assert (H1 : 0 <= shr_m (shr_1 r)).
    { rewrite shr_1_m by done. by rewrite Z.div2_nonneg. }
    assert (H2 : 0 <= shr_m (SpecFloat.iter_pos shr_1 p (shr_1 r))).
    { rewrite IH by done. by apply Z.shiftr_nonneg. }
    rewrite IH by done. rewrite IH by done. rewrite shr_1_m by done.
    rewrite Z.div2_spec. rewrite !Z.shiftr_shiftr by lia.
    f_equal. lia.
  - assert (H2 : 0 <= shr_m (SpecFloat.iter_pos shr_1 p r)).
    { rewrite IH by done. by apply Z.shiftr_nonneg. }
    rewrite IH by done. rewrite IH by done.
    rewrite !Z.shiftr_shiftr by lia. f_equal. lia.
  - rewrite shr_1_m by done. apply Z.div2_spec.
Qed.

Lemma shr_record_of_loc_m (m : Z) (l : location) : shr_m (shr_record_of_loc m l) = m.
Proof. destruct l as [|[]]; reflexivity. Qed.

(** Shifting a positive mantissa to its canonical exponent leaves it
    positive: all but the leading [prec] bits are dropped at most. *)
Lemma shr_fexp_positive (m : positive) (e : Z) (l : location) :
  emin <= e ->
  0 < shr_m (fst (shr_fexp prec emax (Zpos m) e l))
  /\ emin <= snd (shr_fexp prec emax (Zpos m) e l).
Proof.
  intros He. unfold shr_fexp, shr. cbn [Zdigits2].
  pose proof (digits2_pos_bounds m) as [Hlo _].
  destruct (SpecFloat.fexp prec emax (Zpos (digits2_pos m) + e) - e) as [|n|n] eqn:Hn;
    cbn [fst snd]; rewrite ?shr_record_of_loc_m; try (split; lia).
  assert (Hshift : Zpos n <= Zpos (digits2_pos m) - 1).
  { unfold SpecFloat.fexp, SpecFloat.emin, prec, emax in *. lia. }
  split; [|lia].
  rewrite iter_shr_1_m by (rewrite shr_record_of_loc_m; lia).
  rewrite shr_record_of_loc_m, Z.shiftr_div_pow2 by lia.
  apply Z.div_str_pos. split; [lia|].
  etrans; [|exact Hlo]. apply Z.pow_le_mono_r; lia.
Qed.

Lemma round_nearest_even_positive (m : Z) (l : location) :
  0 < m -> 0 < round_nearest_even m l.
Proof.
  intros Hm. destruct l as [|[]]; cbn [round_nearest_even]; try lia.
  destruct (Z.even m); lia.
Qed.

(** Rounding a mantissa that is not zero gives neither a zero
    (underflow is gradual) nor a NaN: the result has the sign. *)
Lemma binary_round_aux_signed (s : bool) (m : positive) (e : Z) (l : location) :
  emin <= e ->
  (exists m' e', binary_round_aux prec emax s (Zpos m) e l = S754_finite s m' e')
  \/ binary_round_aux prec emax s (Zpos m) e l = S754_infinity s.
Proof.
  intros He. unfold binary_round_aux.
  pose proof (shr_fexp_positive m e l He) as [H1 H1'].
  destruct (shr_fexp prec emax (Zpos m) e l) as [r1 e1]. cbn [fst snd] in H1, H1'.
  pose proof (round_nearest_even_positive (shr_m r1) (loc_of_shr_record r1) H1) as H2.
  destruct (round_nearest_even (shr_m r1) (loc_of_shr_record r1)) as [|m2|m2]; try lia.
  pose proof (shr_fexp_positive m2 e1 loc_Exact H1') as [H3 _].
  destruct (shr_fexp prec emax (Zpos m2) e1 loc_Exact) as [r3 e3]. cbn [fst] in H3.
  destruct (shr_m r3) as [|m3|m3]; try lia.
  destruct (e3 <=? emax - prec); [left; eauto|right; done].
Qed.

Lemma shl_align_exponent (m : positive) (e e' : Z) :
  snd (shl_align m e e') = Z.min e e'.
Proof.
  unfold shl_align. destruct (e' - e) eqn:H; cbn [snd]; lia.
Qed.

Lemma binary_round_signed (s : bool) (m : positive) (e : Z) :
  emin <= e ->
  (exists m' e', binary_round prec emax s m e = S754_finite s m' e')
  \/ binary_round prec emax s m e = S754_infinity s.
Proof.
  intros He. unfold binary_round.
  pose proof (shl_align_exponent m e (SpecFloat.fexp prec emax (Zpos (digits2_pos m) + e))) as Hs.
  destruct (shl_align m e _) as [mz ez]. cbn [snd] in Hs.
  apply binary_round_aux_signed.
  unfold SpecFloat.fexp in Hs. lia.
Qed.

Lemma iter_xO (d : positive) (m : positive) : Zpos (Pos.iter xO m d) = Zpos m * 2 ^ Zpos d.
Proof.
  induction d as [|d IH] using Pos.peano_ind.
  - cbn [Pos.iter]. lia.
  - rewrite Pos.iter_succ, Pos2Z.inj_succ, Z.pow_succ_r by lia.
    rewrite Pos2Z.inj_xO, IH. lia.
Qed.

Lemma shl_align_mantissa (m : positive) (e e' : Z) :
  e' <= e -> Zpos (fst (shl_align m e e')) = Zpos m * 2 ^ (e - e').
Proof.
  intros H. unfold shl_align. destruct (e' - e) as [|d|d] eqn:Hd; cbn [fst]; try lia.
  - replace (e - e') with 0 by lia. lia.
  - rewrite iter_xO. f_equal. f_equal. lia.
Qed.

Lemma bounded_canonical (m : positive) (e : Z) :
  bounded prec emax m e = true ->
  emin <= e /\ Zpos (digits2_pos m) <= prec /\ (emin < e -> Zpos (digits2_pos m) = prec).
Proof.
  unfold bounded, canonical_mantissa, SpecFloat.fexp, SpecFloat.emin, prec, emax.
  intros H. apply andb_prop in H as [H _]. apply Z.eqb_eq in H. lia.
Qed.

(** Of two numbers in canonical form, the one with the larger exponent
    is the larger. *)
Lemma larger_exponent (m1 m2 : positive) (e1 e2 : Z) :
  bounded prec emax m1 e1 = true -> bounded prec emax m2 e2 = true ->
  e1 < e2 -> Zpos m1 < Zpos m2 * 2 ^ (e2 - e1).
Proof.
  intros H1 H2 He.
  apply bounded_canonical in H1 as (Hmin & Hd1 & _).
  apply bounded_canonical in H2 as (_ & _ & Hd2).
  pose proof (digits2_pos_bounds m1) as [_ Hup].
  pose proof (digits2_pos_bounds m2) as [Hlo _].
  rewrite Hd2 in Hlo by lia.
  assert (Hp : 2 ^ Zpos (digits2_pos m1) <= 2 ^ prec) by (apply Z.pow_le_mono_r; lia).
  assert (Hq : 2 ^ 1 <= 2 ^ (e2 - e1)) by (apply Z.pow_le_mono_r; lia).
  assert (Hr : 2 ^ prec = 2 ^ (prec - 1) * 2 ^ 1)
    by (rewrite <- Z.pow_add_r by (unfold prec; lia); f_equal; lia).
  assert (0 < 2 ^ (prec - 1)) by (apply Z.pow_pos_nonneg; unfold prec; lia).
  nia.
Qed.

Lemma compare_cont_Eq (m1 m2 : positive) : Pos.compare_cont Eq m1 m2 = (Zpos m1 ?= Zpos m2).
Proof. reflexivity. Qed.

(** [x < y] makes the aligned mantissas of [x - y] differ by a
    negative number. *)
Lemma SFcompare_Lt_difference (sx sy : bool) (mx my : positive) (ex ey : Z) :
  bounded prec emax mx ex = true -> bounded prec emax my ey = true ->
  SFcompare (S754_finite sx mx ex) (S754_finite sy my ey) = Some Lt ->
  cond_Zopp sx (Zpos (fst (shl_align mx ex (Z.min ex ey))))
  - cond_Zopp sy (Zpos (fst (shl_align my ey (Z.min ex ey)))) < 0.
Proof.
  intros Hx Hy Hc.
  rewrite !shl_align_mantissa by lia.
  cbn [SFcompare] in Hc. rewrite compare_cont_Eq in Hc.
  destruct sx, sy; cbn [cond_Zopp]; try discriminate.
  - destruct (Z.compare_spec ex ey) as [He|He|He]; try discriminate.
    + subst ey. rewrite Z.min_id, Z.sub_diag, Z.pow_0_r.
      destruct (Z.compare_spec (Zpos mx) (Zpos my)); cbn in Hc; try discriminate. lia.
    + pose proof (larger_exponent my mx ey ex Hy Hx He).
      rewrite Z.min_r by lia. rewrite Z.sub_diag, Z.pow_0_r. lia.
  - assert (0 < 2 ^ (ex - Z.min ex ey)) by (apply Z.pow_pos_nonneg; lia).
    assert (0 < 2 ^ (ey - Z.min ex ey)) by (apply Z.pow_pos_nonneg; lia).
    nia.
  - destruct (Z.compare_spec ex ey) as [He|He|He]; try discriminate.
    + subst ey. rewrite Z.min_id, Z.sub_diag, Z.pow_0_r.
      destruct (Z.compare_spec (Zpos mx) (Zpos my)); try discriminate. lia.
    + pose proof (larger_exponent mx my ex ey Hx Hy He).
      rewrite Z.min_l by lia. rewrite Z.sub_diag, Z.pow_0_r. lia.
Qed.

(** The difference of a number and a larger one has the sign of the
    negative numbers and is neither a zero nor a NaN. *)
Lemma SFsub_negative (x y : spec_float) :
  valid_binary x = true -> valid_binary y = true ->
  SFltb x y = true ->
  (exists m e, SF64sub x y = S754_finite true m e) \/ SF64sub x y = S754_infinity true.
Proof.
  intros Hx Hy. unfold SFltb.
  destruct (SFcompare x y) as [[]|] eqn:Hc; try discriminate. intros _.
  destruct x as [sx|sx| |sx mx ex], y as [sy|sy| |sy my ey];
    try discriminate;
    try (destruct sx; try discriminate; try destruct sy; try discriminate;
         cbn; eauto; fail).
  cbn [valid_binary] in Hx, Hy.
  pose proof (SFcompare_Lt_difference sx sy mx my ex ey Hx Hy Hc) as Hd.
  unfold SF64sub, SFsub.
  destruct (cond_Zopp sx _ - cond_Zopp sy _) as [|d|d]; try lia.
  cbn [binary_normalize].
  apply bounded_canonical in Hx as (Hx & _). apply bounded_canonical in Hy as (Hy & _).
  apply binary_round_signed. lia.
Qed.

(** The order of the numbers: [<] leaves out [>=], and [<] followed by
    [<=] is [<]. *)
Lemma SFcompare_Lt_Gt (x y : spec_float) :
  SFcompare x y = Some Lt -> SFcompare y x = Some Gt.
Proof.
  destruct x as [sx|sx| |sx mx ex], y as [sy|sy| |sy my ey]; cbn [SFcompare];
    try discriminate; try (destruct sx; try destruct sy; done).
  rewrite !compare_cont_Eq.
  destruct sx, sy; try done;
    rewrite (Z.compare_antisym ex ey), (Z.compare_antisym (Zpos mx) (Zpos my));
    destruct (ex ?= ey), (Zpos mx ?= Zpos my); done.
Qed.

Lemma SFltb_SFleb_trans (x y z : spec_float) :
  SFltb x y = true -> SFleb y z = true -> SFltb x z = true.
Proof.
  unfold SFltb, SFleb.
  destruct (SFcompare x y) as [[]|] eqn:Hxy; try discriminate. intros _.
  destruct (SFcompare y z) as [[]|] eqn:Hyz; try discriminate; intros _.
  - destruct x as [sx|sx| |sx mx ex], y as [sy|sy| |sy my ey], z as [sz|sz| |sz mz ez];
      cbn [SFcompare] in *; try discriminate;
      try (destruct sx; try destruct sy; try destruct sz; done).
    rewrite !compare_cont_Eq in *.
    destruct sx, sy, sz; try done;
      destruct (Z.compare_spec ex ey), (Z.compare_spec ey ez), (Z.compare_spec ex ez);
      try done; try lia; subst;
      destruct (Z.compare_spec (Zpos mx) (Zpos my)), (Z.compare_spec (Zpos my) (Zpos mz)),
               (Z.compare_spec (Zpos mx) (Zpos mz)); try done; try lia.
  - destruct x as [sx|sx| |sx mx ex], y as [sy|sy| |sy my ey], z as [sz|sz| |sz mz ez];
      cbn [SFcompare] in *; try discriminate;
      try (destruct sx; try destruct sy; try destruct sz; done).
    rewrite !compare_cont_Eq in *.
    destruct sx, sy, sz; try done;
      destruct (Z.compare_spec ex ey), (Z.compare_spec ey ez), (Z.compare_spec ex ez);
      try done; try lia; subst;
      destruct (Z.compare_spec (Zpos mx) (Zpos my)), (Z.compare_spec (Zpos my) (Zpos mz)),
               (Z.compare_spec (Zpos mx) (Zpos mz)); try done; try lia.
Qed.

(** *** Rounding to nearest, ties to even, on integers *)

Lemma rne_bounds (m n : Z) : m / 2 ^ n <= rne m n <= m / 2 ^ n + 1.
Proof. unfold rne. repeat case_match; lia. Qed.

Lemma rne_mono (m m' n : Z) :
  0 <= n -> m <= m' -> rne m n <= rne m' n.
Proof.
  intros Hn Hm.
  assert (0 < 2 ^ n) as Hp by (apply Z.pow_pos_nonneg; lia).
  pose proof (Z.div_le_mono m m' (2 ^ n) Hp Hm) as Hq.
  pose proof (Z.div_mod m (2 ^ n) ltac:(lia)) as E.
  pose proof (Z.div_mod m' (2 ^ n) ltac:(lia)) as E'.
  pose proof (Z.mod_pos_bound m (2 ^ n) Hp).
  pose proof (Z.mod_pos_bound m' (2 ^ n) Hp).
  destruct (Z.eq_dec (m / 2 ^ n) (m' / 2 ^ n)) as [Heq|Hne].
  - unfold rne. cbv zeta. rewrite <- Heq. rewrite <- Heq in E'.
    assert (m mod 2 ^ n <= m' mod 2 ^ n) by lia.
    repeat case_match; lia.
  - pose proof (rne_bounds m n). pose proof (rne_bounds m' n). lia.
Qed.

Lemma rne_scale (m n k : Z) :
  0 <= n -> 0 <= k -> rne (m * 2 ^ k) (n + k) = rne m n.
Proof.
  intros Hn Hk.
  assert (0 < 2 ^ n) as Hp by (apply Z.pow_pos_nonneg; lia).
  assert (0 < 2 ^ k) as Hp' by (apply Z.pow_pos_nonneg; lia).
  unfold rne. cbv zeta. rewrite Z.pow_add_r by lia.
  rewrite Z.div_mul_cancel_r by lia.
  rewrite Zmult_mod_distr_r.
  assert (forall a b, (a * 2 ^ k <? b * 2 ^ k) = (a <? b)) as Hlt.
  { intros a b. destruct (Z.ltb_spec a b), (Z.ltb_spec (a * 2 ^ k) (b * 2 ^ k)); try done; nia. }
  replace (2 * (m mod 2 ^ n * 2 ^ k)) with ((2 * (m mod 2 ^ n)) * 2 ^ k) by lia.
  by rewrite !Hlt.
Qed.

Lemma rne_exact (m k : Z) : 0 <= k -> rne (m * 2 ^ k) k = m.
Proof.
  intros Hk. pose proof (rne_scale m 0 k ltac:(lia) Hk) as E.
  rewrite Z.add_0_l in E. rewrite E. unfold rne. cbn.
  rewrite Z.div_1_r, Z.mod_1_r. done.
Qed.

Lemma rne_nonneg (m n : Z) : 0 <= n -> 0 <= m -> 0 <= rne m n.
Proof.
  intros Hn Hm. pose proof (rne_bounds m n).
  assert (0 <= m / 2 ^ n) by (apply Z.div_pos; [lia|apply Z.pow_pos_nonneg; lia]). lia.
Qed.

(** *** The shifts of [SpecFloat] *)

Lemma iter_pos_iter {A} (f : A -> A) (p : positive) : forall x,
  SpecFloat.iter_pos f p x = Pos.iter f x p.
Proof.
  induction p as [p IH|p IH|]; intros x; cbn [SpecFloat.iter_pos Pos.iter].
  - rewrite !IH. by rewrite <- !Pos.iter_swap.
  - by rewrite !IH.
  - done.
Qed.

Lemma shr_1_fields (r : shr_record) :
  0 <= shr_m r ->
  shr_m (shr_1 r) = shr_m r / 2
  /\ shr_r (shr_1 r) = Z.odd (shr_m r)
  /\ shr_s (shr_1 r) = shr_r r || shr_s r.
Proof.
  destruct r as [m r s]; cbn [shr_m shr_r shr_s]. intros Hm.
  destruct m as [|[p|p|]|p]; try lia; cbn [shr_1 shr_m shr_r shr_s];
    (split; [|split; reflexivity]).
  - reflexivity.
  - rewrite Pos2Z.inj_xI. apply Z.div_unique with 1; lia.
  - rewrite Pos2Z.inj_xO. apply Z.div_unique with 0; lia.
  - reflexivity.
Qed.

(** What [p] shifts leave of [m]: the quotient, and in the two flags
    the place of the remainder relative to one half. *)
Lemma shr_steps (m : Z) (p : positive) :
  0 <= m ->
  let r := Pos.iter shr_1 {| shr_m := m; shr_r := false; shr_s := false |} p in
  shr_m r = m / 2 ^ Zpos p
  /\ exists t, 0 <= t < 2 ^ (Zpos p - 1)
       /\ m mod 2 ^ Zpos p = (if shr_r r then 2 ^ (Zpos p - 1) else 0) + t
       /\ shr_s r = negb (t =? 0).
Proof.
  intros Hm. induction p as [|p IH] using Pos.peano_ind; cbv zeta.
  - cbn [Pos.iter].
    destruct (shr_1_fields {| shr_m := m; shr_r := false; shr_s := false |} Hm)
      as (E1 & E2 & E3). cbn [shr_m shr_r shr_s] in *.
    rewrite E1, E2, E3. split; [done|]. exists 0. cbn.
    split; [lia|]. split; [|done].
    rewrite Zmod_odd. by destruct (Z.odd m).
  - rewrite Pos.iter_succ. cbv zeta in IH.
    set (r := Pos.iter shr_1 _ p) in *.
    destruct IH as (Hq & t & Ht & Hrem & Hs).
    assert (0 < 2 ^ Zpos p) as Hp by (apply Z.pow_pos_nonneg; lia).
    assert (0 <= shr_m r) as Hr by (rewrite Hq; apply Z.div_pos; lia).
    destruct (shr_1_fields r Hr) as (E1 & E2 & E3). rewrite E1, E2, E3.
    rewrite Pos2Z.inj_succ, Z.pow_succ_r by lia.
    replace (Z.succ (Zpos p) - 1) with (Zpos p) by lia.
    split; [rewrite Hq, Z.div_div by lia; f_equal; lia|].
    exists (m mod 2 ^ Zpos p).
    split; [apply Z.mod_pos_bound; lia|]. split.
    + rewrite (Z.mul_comm 2), Z.rem_mul_r by lia. rewrite Hq, Zmod_odd.
      destruct (Z.odd (m / 2 ^ Zpos p)); lia.
    + rewrite Hrem, Hs.
      assert (2 ^ Zpos p = 2 * 2 ^ (Zpos p - 1)) as E.
      { rewrite <- Z.pow_succ_r by lia. f_equal. lia. }
      destruct (shr_r r); cbn [orb].
      * symmetry. apply negb_true_iff, Z.eqb_neq. lia.
      * f_equal.
Qed.

Lemma round_shr (m : Z) (p : positive) :
  0 <= m ->
  let r := SpecFloat.iter_pos shr_1 p {| shr_m := m; shr_r := false; shr_s := false |} in
  round_nearest_even (shr_m r) (loc_of_shr_record r) = rne m (Zpos p).
Proof.
  intros Hm. cbv zeta. rewrite iter_pos_iter.
  destruct (shr_steps m p Hm) as (Hq & t & Ht & Hrem & Hs).
  set (r := Pos.iter shr_1 _ p) in *.
  assert (2 ^ Zpos p = 2 * 2 ^ (Zpos p - 1)) as E.
  { rewrite <- Z.pow_succ_r by lia. f_equal. lia. }
  unfold rne. cbv zeta. rewrite <- Hq, Hrem.
  destruct r as [q rb sb]. cbn [shr_m shr_r shr_s loc_of_shr_record] in *.
  destruct rb, sb; cbn [round_nearest_even];
    try (apply negb_true_iff, Z.eqb_neq in Hs);
    try (apply negb_false_iff, Z.eqb_eq in Hs);
    repeat case_match; try lia; try done.
Qed.


(** *** Rounding in closed form *)

Abbreviation fexp64 := (SpecFloat.fexp prec emax).

Lemma fexp64_emin (e : Z) : emin <= fexp64 e.
Proof. unfold SpecFloat.fexp. lia. Qed.

Lemma rne_0 (m : Z) : rne m 0 = m.
Proof. pose proof (rne_exact m 0 ltac:(lia)) as E. by rewrite Z.mul_1_r in E. Qed.

(** The mantissa rounded to the canonical exponent has at most [prec]
    bits, or is [2^prec]. *)
Lemma rne_canonical_bounds (m : positive) (e : Z) :
  let E0 := fexp64 (Zpos (digits2_pos m) + e) in
  e <= E0 ->
  0 <= rne (Zpos m) (E0 - e) <= 2 ^ prec
  /\ (emin < E0 -> 2 ^ (prec - 1) <= rne (Zpos m) (E0 - e)).
Proof.
  intros E0 He.
  pose proof (digits2_pos_bounds m) as [Hlo Hup].
  pose proof (rne_bounds (Zpos m) (E0 - e)) as Hb.
  assert (0 < 2 ^ (E0 - e)) as Hp by (apply Z.pow_pos_nonneg; lia).
  assert (Zpos m / 2 ^ (E0 - e) < 2 ^ prec) as Hq.
  { apply Z.div_lt_upper_bound; [done|].
    rewrite <- Z.pow_add_r by (unfold prec; lia).
    eapply Z.lt_le_trans; [exact Hup|]. apply Z.pow_le_mono_r; [lia|].
    unfold E0, SpecFloat.fexp, prec. lia. }
  assert (0 <= Zpos m / 2 ^ (E0 - e)) by (apply Z.div_pos; lia).
  split; [lia|]. intros Hmin.
  assert (E0 - e = Zpos (digits2_pos m) - prec) as En
    by (unfold E0, SpecFloat.fexp, SpecFloat.emin, prec, emax in *; lia).
  assert (2 ^ (prec - 1) <= Zpos m / 2 ^ (E0 - e)); [|lia].
  apply Z.div_le_lower_bound; [done|].
  rewrite <- Z.pow_add_r by (unfold prec in *; lia).
  eapply Z.le_trans; [|exact Hlo]. apply Z.pow_le_mono_r; [lia|]. lia.
Qed.

Lemma shr_fexp_noshift (m e : Z) :
  fexp64 (Zdigits2 m + e) <= e ->
  shr_fexp prec emax m e loc_Exact
  = ({| shr_m := m; shr_r := false; shr_s := false |}, e).
Proof.
  intros H. unfold shr_fexp, shr. cbn [shr_record_of_loc].
  destruct (SpecFloat.fexp prec emax (Zdigits2 m + e) - e) eqn:E; try done. lia.
Qed.

Lemma finish_shr (s : bool) (m1 E0 : Z) :
  emin <= E0 -> 0 <= m1 <= 2 ^ prec ->
  (let '(r, e) := shr_fexp prec emax m1 E0 loc_Exact in
   match shr_m r with
   | Z0 => S754_zero s
   | Zpos m => if e <=? emax - prec then S754_finite s m e else S754_infinity s
   | Zneg _ => S754_nan
   end) = finish s m1 E0.
Proof.
  intros HE Hm. unfold finish.
  destruct (Z.eqb_spec m1 0) as [->|H0].
  { rewrite shr_fexp_noshift; [done|].
    cbn [Zdigits2]. unfold SpecFloat.fexp, SpecFloat.emin, prec, emax in *. lia. }
  destruct (Z.eqb_spec m1 (2 ^ prec)) as [->|H1].
  { unfold shr_fexp, shr. cbn [shr_record_of_loc].
    change (Zdigits2 (2 ^ prec)) with 54.
    assert (SpecFloat.fexp prec emax (54 + E0) - E0 = 1) as ->
      by (unfold SpecFloat.fexp, SpecFloat.emin, prec, emax in *; lia).
    cbn [SpecFloat.iter_pos]. change (shr_m (shr_1 _)) with (2 ^ (prec - 1)).
    replace (E0 + 1) with (E0 + 1) by done. reflexivity. }
  destruct m1 as [|m1|m1]; try lia.
  rewrite shr_fexp_noshift; [done|].
  cbn [Zdigits2].
  pose proof (digits2_pos_bounds m1) as [Hlo _].
  assert (Zpos (digits2_pos m1) <= prec).
  { destruct (Z.le_gt_cases (Zpos (digits2_pos m1)) prec) as [|Hgt]; [done|].
    assert (2 ^ prec <= 2 ^ (Zpos (digits2_pos m1) - 1))
      by (apply Z.pow_le_mono_r; lia). lia. }
  unfold SpecFloat.fexp, SpecFloat.emin, prec, emax in *. lia.
Qed.

Lemma binary_round_aux_closed (s : bool) (m : positive) (e : Z) :
  let E0 := fexp64 (Zpos (digits2_pos m) + e) in
  e <= E0 ->
  binary_round_aux prec emax s (Zpos m) e loc_Exact
  = finish s (rne (Zpos m) (E0 - e)) E0.
Proof.
  intros E0 He.
  pose proof (rne_canonical_bounds m e He) as [Hb _]. fold E0 in Hb.
  pose proof (fexp64_emin (Zpos (digits2_pos m) + e)) as Hmin. fold E0 in Hmin.
  rewrite <- (finish_shr s _ E0 Hmin Hb).
  unfold binary_round_aux.
  assert (shr_fexp prec emax (Zpos m) e loc_Exact
          = (fst (shr_fexp prec emax (Zpos m) e loc_Exact), E0)
          /\ round_nearest_even (shr_m (fst (shr_fexp prec emax (Zpos m) e loc_Exact)))
               (loc_of_shr_record (fst (shr_fexp prec emax (Zpos m) e loc_Exact)))
             = rne (Zpos m) (E0 - e)) as [E1 E2].
  { unfold shr_fexp, shr. cbn [Zdigits2 shr_record_of_loc]. fold E0.
    destruct (E0 - e) as [|p|p] eqn:En; try lia; cbn [fst].
    - split; [f_equal; lia|]. cbn. by rewrite rne_0.
    - split; [f_equal; lia|]. apply round_shr. lia. }
  rewrite E1, E2. reflexivity.
Qed.

Lemma digits2_pos_iter_xO (m k : positive) :
  Zpos (digits2_pos (Pos.iter xO m k)) = Zpos (digits2_pos m) + Zpos k.
Proof.
  induction k as [|k IH] using Pos.peano_ind.
  - cbn. lia.
  - rewrite Pos.iter_succ. cbn [digits2_pos]. rewrite Pos2Z.inj_succ, IH. lia.
Qed.

(** [binary_round] in closed form: the mantissa is brought to the
    canonical exponent [E0] of the number, rounded if that drops
    bits. *)
Lemma binary_round_closed (s : bool) (m : positive) (e : Z) :
  let E0 := fexp64 (Zpos (digits2_pos m) + e) in
  let b := Z.min e E0 in
  binary_round prec emax s m e = finish s (rne (Zpos m * 2 ^ (e - b)) (E0 - b)) E0.
Proof.
  intros E0 b. unfold binary_round, shl_align. fold E0.
  destruct (E0 - e) as [|k|k] eqn:Ek.
  - rewrite binary_round_aux_closed; fold E0; [|lia].
    unfold b. rewrite Z.min_l by lia. by rewrite Z.sub_diag, Z.mul_1_r.
  - rewrite binary_round_aux_closed; fold E0; [|lia].
    unfold b. rewrite Z.min_l by lia. by rewrite Z.sub_diag, Z.mul_1_r.
  - assert (Zpos (digits2_pos (Pos.iter xO m k)) + E0 = Zpos (digits2_pos m) + e) as Ed
      by (rewrite digits2_pos_iter_xO; lia).
    rewrite binary_round_aux_closed; rewrite Ed; fold E0; [|lia].
    unfold b. rewrite Z.min_r by lia.
    rewrite Z.sub_diag, !rne_0, iter_xO. f_equal. f_equal. f_equal. lia.
Qed.


(** *** Rounding is monotone *)

Lemma rne_base (m e E0 b0 b1 : Z) :
  b0 <= b1 -> b1 <= e -> b1 <= E0 ->
  rne (m * 2 ^ (e - b0)) (E0 - b0) = rne (m * 2 ^ (e - b1)) (E0 - b1).
Proof.
  intros H0 H1 H2.
  replace (e - b0) with ((e - b1) + (b1 - b0)) by lia.
  replace (E0 - b0) with ((E0 - b1) + (b1 - b0)) by lia.
  rewrite Z.pow_add_r, Z.mul_assoc by lia. apply rne_scale; lia.
Qed.

Lemma binary_round_closed_base (s : bool) (m : positive) (e b0 : Z) :
  let E0 := fexp64 (Zpos (digits2_pos m) + e) in
  b0 <= e -> b0 <= E0 ->
  binary_round prec emax s m e = finish s (rne (Zpos m * 2 ^ (e - b0)) (E0 - b0)) E0.
Proof.
  intros E0 H1 H2. rewrite binary_round_closed. fold E0.
  f_equal. symmetry. apply rne_base; lia.
Qed.

Lemma rounded_mantissa_bounds (m : positive) (e b0 : Z) :
  let E0 := fexp64 (Zpos (digits2_pos m) + e) in
  b0 <= e -> b0 <= E0 ->
  0 <= rne (Zpos m * 2 ^ (e - b0)) (E0 - b0) <= 2 ^ prec
  /\ (emin < E0 -> 2 ^ (prec - 1) <= rne (Zpos m * 2 ^ (e - b0)) (E0 - b0)).
Proof.
  intros E0 H1 H2.
  pose proof (digits2_pos_bounds m) as [Hlo Hup].
  pose proof (rne_bounds (Zpos m * 2 ^ (e - b0)) (E0 - b0)) as Hb.
  assert (0 < 2 ^ (E0 - b0)) as Hp by (apply Z.pow_pos_nonneg; lia).
  assert (0 < 2 ^ (e - b0)) as Hp' by (apply Z.pow_pos_nonneg; lia).
  assert (Zpos m * 2 ^ (e - b0) / 2 ^ (E0 - b0) < 2 ^ prec) as Hq.
  { apply Z.div_lt_upper_bound; [done|].
    rewrite <- Z.pow_add_r by (unfold prec; lia).
    eapply Z.lt_le_trans.
    - apply Z.mul_lt_mono_pos_r; [done|exact Hup].
    - rewrite <- Z.pow_add_r by lia. apply Z.pow_le_mono_r; [lia|].
      unfold E0, SpecFloat.fexp, prec. lia. }
  assert (0 <= Zpos m * 2 ^ (e - b0) / 2 ^ (E0 - b0)) by (apply Z.div_pos; lia).
  split; [lia|]. intros Hmin.
  assert (E0 = Zpos (digits2_pos m) + e - prec) as En
    by (unfold E0, SpecFloat.fexp, SpecFloat.emin, prec, emax in *; lia).
  assert (2 ^ (prec - 1) <= Zpos m * 2 ^ (e - b0) / 2 ^ (E0 - b0)); [|lia].
  apply Z.div_le_lower_bound; [done|].
  rewrite <- Z.pow_add_r by (unfold prec in *; lia).
  eapply Z.le_trans; [|apply Z.mul_le_mono_nonneg_r; [lia|exact Hlo]].
  rewrite <- Z.pow_add_r by lia. apply Z.pow_le_mono_r; [lia|].
  unfold prec in *. lia.
Qed.

Lemma SFleb_finite (a a' : positive) (e e' : Z) :
  e < e' \/ (e = e' /\ Zpos a <= Zpos a') ->
  SFleb (S754_finite false a e) (S754_finite false a' e') = true.
Proof.
  unfold SFleb. cbn [SFcompare]. rewrite compare_cont_Eq.
  intros [H|[-> H]].
  - by rewrite (proj2 (Z.compare_lt_iff e e') H).
  - rewrite Z.compare_refl. destruct (Z.compare_spec (Zpos a) (Zpos a')); try done. lia.
Qed.

Lemma finish_mono (m1 E m1' E' : Z) :
  0 <= m1 <= 2 ^ prec -> 0 <= m1' <= 2 ^ prec ->
  E <= E' -> (E = E' -> m1 <= m1') -> (E < E' -> 2 ^ (prec - 1) <= m1') ->
  SFleb (finish false m1 E) (finish false m1' E') = true.
Proof.
  intros H1 H1' HE Heq Hlt.
  assert (0 < 2 ^ (prec - 1) < 2 ^ prec) as Hpow by (unfold prec; lia).
  unfold finish.
  destruct (Z.eqb_spec m1 0) as [->|H0].
  { repeat case_match; reflexivity. }
  destruct (Z.eqb_spec m1' 0) as [->|H0'].
  { exfalso. destruct (Z.eq_dec E E'); [specialize (Heq ltac:(done))|specialize (Hlt ltac:(lia))]; lia. }
  destruct (Z.eqb_spec m1 (2 ^ prec)) as [->|Hm];
    destruct (Z.eqb_spec m1' (2 ^ prec)) as [->|Hm'];
    repeat match goal with
    | |- context [?a <=? ?b] => destruct (Z.leb_spec a b)
    end; try reflexivity; try lia;
    try (apply SFleb_finite; rewrite ?Z2Pos.id by lia; lia).
Qed.

(** Of two positive numbers [m * 2^e] in order, the roundings are in
    order. *)
Lemma binary_round_mono (m m' : positive) (e e' b : Z) :
  b <= e -> b <= e' ->
  Zpos m * 2 ^ (e - b) <= Zpos m' * 2 ^ (e' - b) ->
  SFleb (binary_round prec emax false m e) (binary_round prec emax false m' e') = true.
Proof.
  intros Hb Hb' Hle.
  set (E0 := fexp64 (Zpos (digits2_pos m) + e)).
  set (E0' := fexp64 (Zpos (digits2_pos m') + e')).
  set (b0 := Z.min b E0).
  assert (E0 <= E0') as HE.
  { pose proof (digits2_pos_bounds m) as [Hlo _].
    pose proof (digits2_pos_bounds m') as [_ Hup'].
    assert (0 < 2 ^ (e - b)) by (apply Z.pow_pos_nonneg; lia).
    assert (0 < 2 ^ (e' - b)) by (apply Z.pow_pos_nonneg; lia).
    assert (2 ^ (Zpos (digits2_pos m) - 1 + (e - b)) < 2 ^ (Zpos (digits2_pos m') + (e' - b))) as Hp.
    { rewrite !Z.pow_add_r by lia. nia. }
    apply Z.pow_lt_mono_r_iff in Hp; [|lia|lia].
    unfold E0, E0', SpecFloat.fexp. lia. }
  rewrite (binary_round_closed_base false m e b0), (binary_round_closed_base false m' e' b0);
    fold E0 E0'; try (unfold b0; lia).
  pose proof (rounded_mantissa_bounds m e b0 ltac:(unfold b0; lia) ltac:(unfold b0; lia))
    as [B1 _]. fold E0 in B1.
  pose proof (rounded_mantissa_bounds m' e' b0 ltac:(unfold b0; lia) ltac:(unfold b0; lia))
    as [B1' B2']. fold E0' in B1', B2'.
  apply finish_mono; try done.
  - intros <-. apply rne_mono; [unfold b0; lia|].
    assert (0 < 2 ^ (b - b0)) by (apply Z.pow_pos_nonneg; unfold b0; lia).
    replace (e - b0) with ((e - b) + (b - b0)) by lia.
    replace (e' - b0) with ((e' - b) + (b - b0)) by lia.
    rewrite !Z.pow_add_r by (unfold b0; lia). nia.
  - intros Hlt. apply B2'. pose proof (fexp64_emin (Zpos (digits2_pos m) + e)).
    fold E0 in H. lia.
Qed.


(** *** Signs *)

Lemma finish_opp (m E : Z) : finish true m E = SFopp (finish false m E).
Proof. unfold finish. repeat case_match; reflexivity. Qed.

Lemma binary_round_opp (m : positive) (e : Z) :
  binary_round prec emax true m e = SFopp (binary_round prec emax false m e).
Proof. rewrite !binary_round_closed. apply finish_opp. Qed.

Lemma finish_signed (s : bool) (m E : Z) : signed s (finish s m E).
Proof. unfold finish. repeat case_match; constructor. Qed.

Lemma binary_round_is_signed (s : bool) (m : positive) (e : Z) :
  signed s (binary_round prec emax s m e).
Proof. rewrite binary_round_closed. apply finish_signed. Qed.

Lemma signed_leb (x y : spec_float) :
  signed true x -> signed false y -> SFleb x y = true.
Proof. intros [] []; reflexivity. Qed.

Lemma signed_leb_zero (s : bool) (y : spec_float) :
  signed false y -> SFleb (S754_zero s) y = true.
Proof. intros []; reflexivity. Qed.

Lemma signed_zero_leb (s : bool) (x : spec_float) :
  signed true x -> SFleb x (S754_zero s) = true.
Proof. intros []; reflexivity. Qed.

Lemma SFcompare_opp (x y : spec_float) :
  SFcompare (SFopp y) (SFopp x) = SFcompare x y.
Proof.
  destruct x as [sx|sx| |sx mx ex], y as [sy|sy| |sy my ey]; cbn [SFopp SFcompare];
    try reflexivity;
    try (destruct sx; try destruct sy; reflexivity); try (destruct sy; reflexivity).
  rewrite !compare_cont_Eq.
  destruct sx, sy; cbn [negb]; try reflexivity;
    rewrite (Z.compare_antisym ex ey), (Z.compare_antisym (Zpos mx) (Zpos my));
    destruct (ex ?= ey), (Zpos mx ?= Zpos my); reflexivity.
Qed.

Lemma SFleb_opp (x y : spec_float) : SFleb (SFopp y) (SFopp x) = SFleb x y.
Proof. unfold SFleb. by rewrite SFcompare_opp. Qed.

(** [binary_normalize] is monotone in the number [z * 2^e] it is given. *)
Lemma binary_normalize_mono (z z' e e' b : Z) :
  b <= e -> b <= e' ->
  z * 2 ^ (e - b) <= z' * 2 ^ (e' - b) ->
  SFleb (binary_normalize prec emax z e false) (binary_normalize prec emax z' e' false) = true.
Proof.
  intros Hb Hb' Hle.
  assert (0 < 2 ^ (e - b)) by (apply Z.pow_pos_nonneg; lia).
  assert (0 < 2 ^ (e' - b)) by (apply Z.pow_pos_nonneg; lia).
  destruct z as [|m|m], z' as [|m'|m']; cbn [binary_normalize]; try nia.
  - reflexivity.
  - apply signed_leb_zero, binary_round_is_signed.
  - by apply (binary_round_mono m m' e e' b).
  - apply signed_zero_leb, binary_round_is_signed.
  - apply signed_leb; apply binary_round_is_signed.
  - rewrite !binary_round_opp, SFleb_opp.
    apply (binary_round_mono m' m e' e b); try done. lia.
Qed.

(** *** Numbers in canonical form *)

Lemma binary_round_bounded (s : bool) (m : positive) (e : Z) :
  bounded prec emax m e = true ->
  binary_round prec emax s m e = S754_finite s m e.
Proof.
  intros H. rewrite binary_round_closed.
  pose proof (digits2_pos_bounds m) as [Hlo Hup].
  pose proof (bounded_canonical m e H) as (Hmin & Hd & _).
  unfold bounded, canonical_mantissa in H. apply andb_prop in H as [Hc He].
  apply Z.eqb_eq in Hc. apply Z.leb_le in He. rewrite Hc.
  rewrite Z.min_id, Z.sub_diag, Z.mul_1_r, rne_0.
  unfold finish.
  assert (Zpos m < 2 ^ prec).
  { eapply Z.lt_le_trans; [exact Hup|]. apply Z.pow_le_mono_r; lia. }
  destruct (Z.eqb_spec (Zpos m) 0); [lia|].
  destruct (Z.eqb_spec (Zpos m) (2 ^ prec)); [lia|].
  destruct (Z.leb_spec e (emax - prec)); [done|lia].
Qed.

(** The order of two numbers in canonical form is that of their
    values. *)
Lemma SFleb_values (sx sy : bool) (mx my : positive) (ex ey b : Z) :
  bounded prec emax mx ex = true -> bounded prec emax my ey = true ->
  b <= ex -> b <= ey ->
  SFleb (S754_finite sx mx ex) (S754_finite sy my ey) = true ->
  cond_Zopp sx (Zpos mx) * 2 ^ (ex - b) <= cond_Zopp sy (Zpos my) * 2 ^ (ey - b).
Proof.
  intros Hx Hy Hb Hb' Hle.
  assert (0 < 2 ^ (Z.min ex ey - b)) as Hp by (apply Z.pow_pos_nonneg; lia).
  assert (cond_Zopp sx (Zpos mx) * 2 ^ (ex - Z.min ex ey)
          <= cond_Zopp sy (Zpos my) * 2 ^ (ey - Z.min ex ey)) as Hmin.
  { unfold SFleb in Hle.
    destruct (SFcompare (S754_finite sx mx ex) (S754_finite sy my ey)) as [[]|] eqn:Hc;
      try discriminate.
    - cbn [SFcompare] in Hc. rewrite compare_cont_Eq in Hc.
      destruct sx, sy; try discriminate;
        destruct (Z.compare_spec ex ey); try discriminate;
        destruct (Z.compare_spec (Zpos mx) (Zpos my)) as [E| |]; try discriminate;
        subst; injection E as ->; lia.
    - pose proof (SFcompare_Lt_difference sx sy mx my ex ey Hx Hy Hc) as Hd.
      rewrite !shl_align_mantissa in Hd by lia.
      destruct sx, sy; cbn [cond_Zopp] in *; lia. }
  replace (ex - b) with ((ex - Z.min ex ey) + (Z.min ex ey - b)) by lia.
  replace (ey - b) with ((ey - Z.min ex ey) + (Z.min ex ey - b)) by lia.
  rewrite !Z.pow_add_r by lia. nia.
Qed.

Lemma SFleb_refl (x : spec_float) : x <> S754_nan -> SFleb x x = true.
Proof.
  unfold SFleb. destruct x as [s|s| |s m e]; try done; cbn [SFcompare].
  - by destruct s.
  - rewrite compare_cont_Eq, Z.compare_refl, Z.compare_refl. by destruct s.
Qed.


(** *** Addition and multiplication are monotone *)

Lemma binary_normalize_not_nan (z e : Z) :
  binary_normalize prec emax z e false <> S754_nan.
Proof.
  destruct z as [|m|m]; cbn [binary_normalize]; [done| |].
  - by destruct (binary_round_is_signed false m e).
  - by destruct (binary_round_is_signed true m e).
Qed.

Lemma SFleb_neg_infinity (x : spec_float) :
  x <> S754_nan -> SFleb (S754_infinity true) x = true.
Proof. destruct x as [s|s| |s m e]; try done; by destruct s. Qed.

Lemma SFleb_infinity (x : spec_float) :
  x <> S754_nan -> SFleb x (S754_infinity false) = true.
Proof. destruct x as [s|s| |s m e]; try done; by destruct s. Qed.

Lemma SFadd_finite (sx sc : bool) (mx mc : positive) (ex ec : Z) :
  SF64add (S754_finite sx mx ex) (S754_finite sc mc ec)
  = binary_normalize prec emax
      (cond_Zopp sx (Zpos mx) * 2 ^ (ex - Z.min ex ec)
       + cond_Zopp sc (Zpos mc) * 2 ^ (ec - Z.min ex ec)) (Z.min ex ec) false.
Proof.
  unfold SF64add, SFadd. rewrite !shl_align_mantissa by lia.
  destruct sx, sc; cbn [cond_Zopp]; f_equal; lia.
Qed.

Lemma binary_normalize_bounded (s : bool) (m : positive) (e : Z) :
  bounded prec emax m e = true ->
  binary_normalize prec emax (cond_Zopp s (Zpos m)) e false = S754_finite s m e.
Proof. intros H. destruct s; cbn; by apply binary_round_bounded. Qed.

Lemma pow2_split (a b c : Z) : c <= b -> b <= a -> 2 ^ (a - b) * 2 ^ (b - c) = 2 ^ (a - c).
Proof. intros. rewrite <- Z.pow_add_r by lia. f_equal. lia. Qed.

(** Adding a number [c] keeps the order. *)
Lemma SFadd_mono_l (x y : spec_float) (sc : bool) (mc : positive) (ec : Z) :
  valid_binary x = true -> valid_binary y = true ->
  bounded prec emax mc ec = true ->
  SFleb x y = true ->
  SFleb (SF64add x (S754_finite sc mc ec)) (SF64add y (S754_finite sc mc ec)) = true.
Proof.
  intros Hx Hy Hc Hle.
  destruct x as [sx|sx| |sx mx ex], y as [sy|sy| |sy my ey];
    try (by destruct sx); try (by destruct sy); try (destruct sx, sy; done).
  - (* zero, zero *) by apply SFleb_refl.
  - (* zero, a number *)
    change (SF64add (S754_zero sx) (S754_finite sc mc ec)) with (S754_finite sc mc ec).
    assert (sy = false) as -> by (by destruct sy).
    rewrite SFadd_finite, <- (binary_normalize_bounded sc mc ec Hc).
    apply (binary_normalize_mono _ _ _ _ (Z.min ey ec)); [lia|lia|].
    rewrite Z.sub_diag, Z.pow_0_r, Z.mul_1_r. cbn [cond_Zopp].
    assert (0 < 2 ^ (ey - Z.min ey ec)) by (apply Z.pow_pos_nonneg; lia). nia.
  - (* an infinity, a number *)
    destruct sx; [|by destruct sy]. apply SFleb_neg_infinity.
    rewrite SFadd_finite. apply binary_normalize_not_nan.
  - (* no number *) discriminate Hle.
  - (* a number, zero *)
    change (SF64add (S754_zero sy) (S754_finite sc mc ec)) with (S754_finite sc mc ec).
    assert (sx = true) as -> by (by destruct sx).
    rewrite SFadd_finite, <- (binary_normalize_bounded sc mc ec Hc).
    apply (binary_normalize_mono _ _ _ _ (Z.min ex ec)); [lia|lia|].
    rewrite Z.sub_diag, Z.pow_0_r, Z.mul_1_r. cbn [cond_Zopp].
    assert (0 < 2 ^ (ex - Z.min ex ec)) by (apply Z.pow_pos_nonneg; lia). nia.
  - (* a number, an infinity *)
    destruct sy; [by destruct sx|]. apply SFleb_infinity.
    rewrite SFadd_finite. apply binary_normalize_not_nan.
  - (* two numbers *)
    cbn [valid_binary] in Hx, Hy.
    set (b := Z.min (Z.min ex ec) (Z.min ey ec)).
    pose proof (SFleb_values sx sy mx my ex ey b Hx Hy ltac:(unfold b; lia)
                  ltac:(unfold b; lia) Hle) as Hv.
    rewrite !SFadd_finite.
    apply (binary_normalize_mono _ _ _ _ b); [unfold b; lia|unfold b; lia|].
    rewrite !Z.mul_add_distr_r, <- !Z.mul_assoc, !pow2_split by (unfold b; lia). lia.
Qed.

Lemma digits2_pos_mul (m1 m2 : positive) :
  Zpos (digits2_pos m1) + Zpos (digits2_pos m2) - 1 <= Zpos (digits2_pos (m1 * m2)).
Proof.
  pose proof (digits2_pos_bounds m1) as [H1 _].
  pose proof (digits2_pos_bounds m2) as [H2 _].
  pose proof (digits2_pos_bounds (m1 * m2)) as [_ H].
  assert (2 ^ (Zpos (digits2_pos m1) - 1 + (Zpos (digits2_pos m2) - 1))
          < 2 ^ Zpos (digits2_pos (m1 * m2))) as Hp.
  { rewrite Z.pow_add_r by lia. rewrite Pos2Z.inj_mul in H.
    assert (0 < 2 ^ (Zpos (digits2_pos m1) - 1)) by (apply Z.pow_pos_nonneg; lia).
    assert (0 < 2 ^ (Zpos (digits2_pos m2) - 1)) by (apply Z.pow_pos_nonneg; lia).
    nia. }
  apply Z.pow_lt_mono_r_iff in Hp; lia.
Qed.

(** The product of two numbers in canonical form, in closed form. *)
Lemma SFmul_finite (sx sc : bool) (mx mc : positive) (ex ec : Z) :
  bounded prec emax mx ex = true -> bounded prec emax mc ec = true ->
  SF64mul (S754_finite sx mx ex) (S754_finite sc mc ec)
  = binary_round prec emax (xorb sx sc) (mx * mc) (ex + ec).
Proof.
  intros Hx Hc. unfold SF64mul, SFmul, binary_round, shl_align.
  pose proof (bounded_canonical mx ex Hx) as (Hx1 & Hx2 & Hx3).
  pose proof (bounded_canonical mc ec Hc) as (Hc1 & Hc2 & Hc3).
  pose proof (digits2_pos_mul mx mc) as Hd.
  pose proof (digits2_pos_bounds mx) as [Hlx _].
  pose proof (digits2_pos_bounds mc) as [Hlc _].
  assert (0 < Zpos (digits2_pos mx)) by lia.
  assert (0 < Zpos (digits2_pos mc)) by lia.
  destruct (SpecFloat.fexp prec emax (Zpos (digits2_pos (mx * mc)) + (ex + ec)) - (ex + ec))
    as [|k|k] eqn:E; try reflexivity.
  exfalso. unfold SpecFloat.fexp, SpecFloat.emin, prec, emax in *.
  destruct (Z.eq_dec ex (-1074)), (Z.eq_dec ec (-1074)); lia.
Qed.

(** Multiplying by a number [c] above zero keeps the order. *)
Lemma SFmul_mono_l (x y : spec_float) (mc : positive) (ec : Z) :
  valid_binary x = true -> valid_binary y = true ->
  bounded prec emax mc ec = true ->
  SFleb x y = true ->
  SFleb (SF64mul x (S754_finite false mc ec)) (SF64mul y (S754_finite false mc ec)) = true.
Proof.
  intros Hx Hy Hc Hle.
  destruct x as [sx|sx| |sx mx ex], y as [sy|sy| |sy my ey];
    try (by destruct sx); try (by destruct sy); try (destruct sx, sy; done).
  - (* zero, a number *)
    assert (sy = false) as -> by (by destruct sy).
    cbn [valid_binary] in Hy. rewrite (SFmul_finite false false) by done.
    cbn [SF64mul SFmul xorb]. apply signed_leb_zero, binary_round_is_signed.
  - (* an infinity, a number *)
    destruct sx; [|by destruct sy]. apply SFleb_neg_infinity.
    cbn [valid_binary] in Hy. rewrite SFmul_finite by done.
    by destruct (binary_round_is_signed (xorb sy false) (my * mc) (ey + ec)).
  - (* no number *) discriminate Hle.
  - (* a number, zero *)
    assert (sx = true) as -> by (by destruct sx).
    cbn [valid_binary] in Hx. rewrite (SFmul_finite true false) by done.
    cbn [SF64mul SFmul xorb]. apply signed_zero_leb, binary_round_is_signed.
  - (* a number, an infinity *)
    destruct sy; [by destruct sx|]. apply SFleb_infinity.
    cbn [valid_binary] in Hx. rewrite SFmul_finite by done.
    by destruct (binary_round_is_signed (xorb sx false) (mx * mc) (ex + ec)).
  - (* two numbers *)
    cbn [valid_binary] in Hx, Hy.
    rewrite !SFmul_finite by done. rewrite !xorb_false_r.
    set (b := Z.min ex ey).
    pose proof (SFleb_values sx sy mx my ex ey b Hx Hy ltac:(unfold b; lia)
                  ltac:(unfold b; lia) Hle) as Hv.
    assert (forall s m e, binary_round prec emax s m e
              = binary_normalize prec emax (cond_Zopp s (Zpos m)) e false) as Hn
      by (by intros []).
    rewrite !Hn.
    apply (binary_normalize_mono _ _ _ _ (b + ec)); [unfold b; lia|unfold b; lia|].
    replace (ex + ec - (b + ec)) with (ex - b) by lia.
    replace (ey + ec - (b + ec)) with (ey - b) by lia.
    rewrite !Pos2Z.inj_mul.
    destruct sx, sy; cbn [cond_Zopp] in *; nia.
Qed.

End Binary64.

(** The difference of a number and a larger one is below zero: it is
    not rounded to a zero and is no NaN. *)
Lemma sub_below (x y : float) :
  (x <? y)%float = true -> (0 <=? x - y)%float = false.
Proof.
  rewrite ltb_spec, leb_spec, sub_spec. intros H.
  destruct (Binary64.SFsub_negative _ _ (Prim2SF_valid x) (Prim2SF_valid y) H)
    as [(m & e & ->)| ->]; reflexivity.
Qed.

Lemma sub_below_zero (x y : float) :
  (x <? y)%float = true -> (x - y <? 0)%float = true.
Proof.
  rewrite !ltb_spec, sub_spec. intros H.
  destruct (Binary64.SFsub_negative _ _ (Prim2SF_valid x) (Prim2SF_valid y) H)
    as [(m & e & ->)| ->]; reflexivity.
Qed.

Lemma ltb_not_leb (x y : float) :
  (x <? y)%float = true -> (y <=? x)%float = false.
Proof.
  rewrite ltb_spec, leb_spec. unfold SFltb, SFleb.
  destruct (SFcompare (Prim2SF x) (Prim2SF y)) as [[]|] eqn:H; try discriminate.
  by rewrite (Binary64.SFcompare_Lt_Gt _ _ H).
Qed.

Lemma ltb_leb_trans (x y z : float) :
  (x <? y)%float = true -> (y <=? z)%float = true -> (x <? z)%float = true.
Proof. rewrite !ltb_spec, leb_spec. apply Binary64.SFltb_SFleb_trans. Qed.

(** Adding a number and multiplying by a number above zero keep the
    order of binary64 values. *)
Lemma add_leb_mono (x y c : float) (s : bool) (m : positive) (e : Z) :
  Prim2SF c = S754_finite s m e ->
  (x <=? y)%float = true -> (x + c <=? y + c)%float = true.
Proof.
  intros Hc. rewrite !leb_spec, !add_spec, Hc.
  apply Binary64.SFadd_mono_l; try apply Prim2SF_valid.
  pose proof (Prim2SF_valid c) as H. by rewrite Hc in H.
Qed.

Lemma mul_leb_mono (x y c : float) (m : positive) (e : Z) :
  Prim2SF c = S754_finite false m e ->
  (x <=? y)%float = true -> (x * c <=? y * c)%float = true.
Proof.
  intros Hc. rewrite !leb_spec, !mul_spec, Hc.
  apply Binary64.SFmul_mono_l; try apply Prim2SF_valid.
  pose proof (Prim2SF_valid c) as H. by rewrite Hc in H.
Qed.

(** The target grows with the amount. *)
Lemma target_of_mono (amount1 amount2 : float) :
  (amount1 <=? amount2)%float = true ->
  (target_of amount1 <=? target_of amount2)%float = true.
Proof.
  intros H. unfold target_of.
  eapply mul_leb_mono; [vm_compute; reflexivity|].
  eapply add_leb_mono; [vm_compute; reflexivity|done].
Qed.

Lemma Satoshi_nonneg (v : float) : Satoshi v = true -> (0 <=? v)%float = true.
Proof.
  unfold Satoshi, UInt53. intros H.
  apply andb_prop in H as [H _]. apply andb_prop in H as [H _].
  by apply andb_prop in H as [H _].
Qed.

(** ** Completions and loops *)

Lemma Completion_bind_Normal {A B} (f : A -> Completion B) (x : A) :
  Normal x ≫= f = f x.
Proof. reflexivity. Qed.

Lemma Completion_bind_Normal_r {A} (c : Completion A) : c ≫= Normal = c.
Proof. by destruct c. Qed.

Lemma Completion_bind_inv {A B} (f : A -> Completion B) (c : Completion A) (y : B) :
  c ≫= f = Normal y -> exists x, c = Normal x /\ f x = Normal y.
Proof. destruct c as [x|e]; [by exists x|discriminate]. Qed.

Lemma Completion_bind_Throw {A B} (f : A -> Completion B) (c : Completion A) (e : Failure) :
  c ≫= f = Throw e -> c = Throw e \/ exists x, c = Normal x /\ f x = Throw e.
Proof. destruct c as [x|e']; intros H; [right; by exists x|left; by injection H as ->]. Qed.

Lemma forEach_app {A S} (f : S -> A -> Completion S) (l1 l2 : list A) : forall s,
  forEach f (l1 ++ l2) s = forEach f l1 s ≫= forEach f l2.
Proof.
  induction l1 as [|x l1 IH]; intros s; [done|].
  cbn [app forEach]. destruct (f s x) as [s'|e]; [apply IH|done].
Qed.

Lemma forEach_snoc {A S} (f : S -> A -> Completion S) (l : list A) (x : A) (s : S) :
  forEach f (l ++ [x]) s = forEach f l s ≫= (fun s' => f s' x).
Proof.
  rewrite forEach_app. destruct (forEach f l s) as [s'|e]; [|done].
  cbn [forEach]. rewrite Completion_bind_Normal. apply Completion_bind_Normal_r.
Qed.

(** A loop throws what one of the calls of its callback throws. *)
Lemma forEach_Throw {A S} (P : Failure -> Prop) (f : S -> A -> Completion S) (l : list A) :
  (forall s x e, f s x = Throw e -> P e) ->
  forall s e, forEach f l s = Throw e -> P e.
Proof.
  intros Hf. induction l as [|x l IH]; intros s e; [discriminate|].
  cbn [forEach]. intros H. apply Completion_bind_Throw in H as [H|(s' & _ & H)].
  - by apply (Hf s x).
  - by apply (IH s').
Qed.

(** ** The methods of the builder *)

Lemma addInput_Normal (h : string) (i : nat) (t t' : TransactionBuilder) :
  addInput h i t = Normal t' ->
  length (txHash_of h) = 32%nat
  /\ isCoinbaseHash (txHash_of h) = false
  /\ t' = {| tb_network := tb_network t; tb_version := tb_version t;
             tb_inputs := tb_inputs t ++ [ {| prev_txid := h; prev_index := i;
                                              signed_with := None |} ];
             tb_outputs := tb_outputs t |}.
Proof.
  unfold addInput.
  destruct (Nat.eqb_spec (length (txHash_of h)) 32) as [Hl|]; [|discriminate].
  cbn [negb]. destruct (isCoinbaseHash (txHash_of h)); [discriminate|].
  destruct (existsb _ _); [discriminate|]. by intros [= <-].
Qed.

(** The counter given as the index has not been used by an input
    added before it. *)
Lemma addInput_fresh_index (h : string) (i : nat) (t : TransactionBuilder) :
  length (txHash_of h) = 32%nat ->
  isCoinbaseHash (txHash_of h) = false ->
  Forall (fun input => (prev_index input < i)%nat) (tb_inputs t) ->
  addInput h i t
  = Normal {| tb_network := tb_network t; tb_version := tb_version t;
              tb_inputs := tb_inputs t ++ [ {| prev_txid := h; prev_index := i;
                                               signed_with := None |} ];
              tb_outputs := tb_outputs t |}.
Proof.
  intros Hl Hc Hi. unfold addInput. rewrite Hl, Hc. cbn [Nat.eqb negb].
  assert (existsb (fun input => same_prevTxOut (prevTxOut (prev_txid input) (prev_index input))
                                               (prevTxOut h i)) (tb_inputs t) = false) as ->; [|done].
  induction Hi as [|input l Hlt _ IH]; [done|].
  cbn [existsb]. rewrite IH, orb_false_r.
  unfold same_prevTxOut, prevTxOut. cbn [fst snd].
  destruct (Nat.eqb_spec (prev_index input) i); [lia|]. by rewrite andb_false_r.
Qed.

Lemma addInput_Throw (h : string) (i : nat) (t : TransactionBuilder) (e : Failure) :
  addInput h i t = Throw e -> thrown_by_library e.
Proof.
  unfold addInput, thrown_by_library. repeat case_match; intros [= <-]; left; by eexists.
Qed.

Lemma addOutput_Normal (a : string) (v : float) (t t' : TransactionBuilder) :
  addOutput a v t = Normal t' <->
  has_matching_Script a (tb_network t) = true
  /\ Satoshi v = true
  /\ t' = {| tb_network := tb_network t; tb_version := tb_version t;
             tb_inputs := tb_inputs t;
             tb_outputs := tb_outputs t ++ [ {| out_address := a; out_value := v |} ] |}.
Proof.
  unfold addOutput.
  destruct (has_matching_Script a (tb_network t)), (Satoshi v); cbn [negb]; split;
    try discriminate; try (intros (? & ? & ?); discriminate).
  - by intros [= <-].
  - by intros (_ & _ & ->).
Qed.

Lemma addOutput_Throw (a : string) (v : float) (t : TransactionBuilder) (e : Failure) :
  addOutput a v t = Throw e -> thrown_by_library e.
Proof.
  unfold addOutput, thrown_by_library. repeat case_match; intros [= <-]; left; by eexists.
Qed.

Lemma sign_Throw (i : nat) (kp : KeyPair) (t : TransactionBuilder) (e : Failure) :
  sign i kp t = Throw e -> thrown_by_library e.
Proof.
  unfold sign, thrown_by_library. repeat case_match; intros [= <-];
    [by right|left; by eexists].
Qed.

Lemma build_Throw (t : TransactionBuilder) (e : Failure) :
  build t = Throw e -> thrown_by_library e.
Proof.
  unfold build, thrown_by_library. repeat case_match; intros [= <-]; left; by eexists.
Qed.

(** ** The selection loop *)

Lemma running_total_snoc (l : list Unspent) (tx : Unspent) :
  running_total (l ++ [tx]) = (running_total l + units tx)%float.
Proof. unfold running_total. by rewrite fold_left_app. Qed.

Lemma running_total_take_S (us : list Unspent) (k : nat) (tx : Unspent) :
  us !! k = Some tx ->
  running_total (take (S k) us) = (running_total (take k us) + units tx)%float.
Proof. intros Hk. by rewrite (take_S_r _ _ _ Hk), running_total_snoc. Qed.

Lemma forEach_unspents_snoc target us tx :
  forEach_unspents target (us ++ [tx])
  = forEach_unspents target us ≫= (fun l => forEach_body target l tx).
Proof. unfold forEach_unspents. apply forEach_snoc. Qed.

Lemma forEach_unspents_invariant target us : forall l,
  forEach_unspents target us = Normal l -> loop_invariant target us l.
Proof.
  induction us as [|tx us IH] using rev_ind; intros l.
  - intros [= <-]. split; cbn; try done; intros; lia.
  - rewrite forEach_unspents_snoc. intros H.
    apply Completion_bind_inv in H as (l0 & H0 & H).
    destruct (IH l0 H0) as [Hc Ht Hi Ho Hv Hn Hb Hr Ha]. clear IH H0.
    unfold forEach_body in H.
    destruct (transferAmount l0 <? target)%float eqn:Hlt.
    + assert (inputs l0 = length us) as Hk.
      { destruct (decide (inputs l0 < length us)%nat) as [Hs|]; [|lia].
        specialize (Hr Hs). congruence. }
      apply Completion_bind_inv in H as (t' & Hadd & [= <-]).
      apply addInput_Normal in Hadd as (Hlen & Hcb & ->).
      split; cbn [inputs txb transferAmount tb_inputs tb_outputs tb_version tb_network].
      * rewrite length_app. simpl. lia.
      * rewrite Hk, take_ge by (rewrite length_app; simpl; lia).
        rewrite running_total_snoc, Ht, Hk, take_ge by lia. done.
      * rewrite Hk, take_ge by (rewrite length_app; simpl; lia).
        rewrite imap_app, Hi, Hk, take_ge by lia. simpl.
        by rewrite Nat.add_0_r.
      * done.
      * done.
      * done.
      * intros i Hi'. destruct (decide (i < inputs l0)%nat) as [Hs|Hs].
        -- rewrite take_app_le by lia. by apply Hb.
        -- assert (i = inputs l0) as -> by lia.
           rewrite take_app_le by lia. by rewrite <- Ht.
      * rewrite length_app. simpl. lia.
      * rewrite Hk, take_ge by (rewrite length_app; simpl; lia).
        rewrite Hk, take_ge in Ha by lia.
        apply Forall_app. split; [done|]. by repeat constructor.
    + injection H as <-. split; try done.
      * rewrite length_app. simpl. lia.
      * by rewrite take_app_le by lia.
      * by rewrite take_app_le by lia.
      * intros i Hi'. rewrite take_app_le by lia. by apply Hb.
      * by rewrite take_app_le by lia.
Qed.

Lemma imap_input_of_index (s : option KeyPair) (l : list Unspent) :
  Forall (fun input => (prev_index input < length l)%nat) (imap (input_of s) l).
Proof.
  apply Forall_lookup. intros i input. rewrite list_lookup_imap.
  destruct (l !! i) as [tx|] eqn:E; [|done].
  cbn. intros [= <-]. cbn. by apply lookup_lt_Some in E.
Qed.

(** The loop returns when the transaction ids it hands to [addInput]
    are accepted. *)
Lemma forEach_unspents_returns target us :
  Forall accepted_txid us -> exists l, forEach_unspents target us = Normal l.
Proof.
  induction us as [|tx us IH] using rev_ind; intros Hall; [by eexists|].
  apply Forall_app in Hall as [Hus Htx].
  destruct (IH Hus) as [l0 H0]. rewrite forEach_unspents_snoc, H0, Completion_bind_Normal.
  destruct (forEach_unspents_invariant _ _ _ H0) as [Hc _ Hi _ _ _ _ _ _].
  unfold forEach_body. destruct (transferAmount l0 <? target)%float; [|by eexists].
  apply Forall_inv in Htx as [Hlen Hcb].
  rewrite (addInput_fresh_index _ _ _ Hlen Hcb).
  - rewrite Completion_bind_Normal. by eexists.
  - rewrite Hi. eapply Forall_impl; [apply imap_input_of_index|].
    cbn. intros input. rewrite length_take. lia.
Qed.

Lemma forEach_body_Throw target l tx e :
  forEach_body target l tx = Throw e -> thrown_by_library e.
Proof.
  unfold forEach_body. destruct (_ <? _)%float; [|discriminate].
  intros H. apply Completion_bind_Throw in H as [H|(? & _ & H)]; [|discriminate].
  by apply addInput_Throw in H.
Qed.

(** ** Signing and the built transaction *)

Lemma alter_out_of_range {A} (f : A -> A) (l : list A) : forall i,
  (length l <= i)%nat -> alter f i l = l.
Proof.
  induction l as [|x l IH]; intros [|i] Hi; simpl in *; try done; try lia.
  f_equal. apply IH. lia.
Qed.

Lemma sign_loop kp n : forall t,
  (n <= length (tb_inputs t))%nat ->
  kp_network kp = tb_network t ->
  forEach (fun txb i => sign i kp txb) (seq 0 n) t
  = Normal {| tb_network := tb_network t; tb_version := tb_version t;
              tb_inputs := (sign_input kp <$> take n (tb_inputs t)) ++ drop n (tb_inputs t);
              tb_outputs := tb_outputs t |}.
Proof.
  induction n as [|n IH]; intros t Hn Hnet.
  - cbn. by destruct t.
  - rewrite seq_S, forEach_snoc, IH by (done || lia). rewrite Completion_bind_Normal.
    cbn [Nat.add]. unfold sign. cbn [tb_network tb_inputs tb_version tb_outputs].
    case_bool_decide; [|done]. cbn [negb].
    destruct (lookup_lt_is_Some_2 (tb_inputs t) n ltac:(lia)) as [x Hx].
    assert (length (sign_input kp <$> take n (tb_inputs t)) = n) as Hl.
    { rewrite length_fmap, length_take. lia. }
    rewrite lookup_app_r, Hl, Nat.sub_diag by lia.
    rewrite (drop_S _ _ _ Hx). cbn [lookup list_lookup].
    f_equal. f_equal.
    rewrite alter_app_r_alt, Hl, Nat.sub_diag by lia. cbn [alter list_alter].
    rewrite (take_S_r _ _ _ Hx), fmap_app, <- app_assoc. done.
Qed.

Lemma sign_loop_network kp n t :
  kp_network kp <> tb_network t -> (0 < n)%nat ->
  forEach (fun txb i => sign i kp txb) (seq 0 n) t = Throw (TypeError "Inconsistent network").
Proof.
  intros Hnet Hn. destruct n as [|n]; [lia|].
  cbn [seq forEach].
  assert (sign 0 kp t = Throw (TypeError "Inconsistent network")) as ->; [|done].
  unfold sign. by case_bool_decide.
Qed.

Lemma imap_sign_input kp l :
  sign_input kp <$> imap (input_of None) l = imap (input_of (Some kp)) l.
Proof.
  rewrite fmap_imap. by apply imap_ext.
Qed.

Lemma forallb_is_signed kp (l : list Unspent) :
  forallb is_signed (imap (input_of (Some kp)) l) = true.
Proof.
  apply Is_true_true, forallb_True, Forall_lookup. intros i input.
  rewrite list_lookup_imap. destruct (l !! i); [|done].
  cbn. by intros [= <-].
Qed.

(** [_buildTransaction] builds a transaction exactly when the loop
    returns and the library accepts the two outputs, the key pair and a
    transaction with the inputs selected; the transaction is then made
    of the first [inputs l] unspent outputs, all signed, the payment and
    the change. *)
Lemma _buildTransaction_txb_Normal this address amount unspents t :
  _buildTransaction_txb this address amount unspents = Normal t <->
  exists l, forEach_unspents (target_of amount) unspents = Normal l
    /\ accepted this address amount l
    /\ t = transaction_of this address amount unspents l.
Proof.
  unfold _buildTransaction_txb, accepted, transaction_of.
  destruct (forEach_unspents (target_of amount) unspents) as [l|e] eqn:Hloop;
    [|split; [discriminate|by intros (? & ? & _)]].
  rewrite Completion_bind_Normal.
  destruct (forEach_unspents_invariant _ _ _ Hloop) as [Hc Ht Hi Ho Hv Hn _ _ _].
  assert (forall P : Locals -> Prop, (exists l', Normal l = Normal l' /\ P l') <-> P l) as Hex.
  { intros P. split; [by intros (? & [= <-] & ?)|by exists l]. }
  rewrite Hex. clear Hex.
  destruct (addOutput address amount (txb l)) as [t1|e] eqn:H1.
  2:{ split; [discriminate|]. intros ((Ha & Hs & _) & _).
      assert (addOutput address amount (txb l) = Normal
                {| tb_network := tb_network (txb l); tb_version := tb_version (txb l);
                   tb_inputs := tb_inputs (txb l);
                   tb_outputs := tb_outputs (txb l)
                     ++ [ {| out_address := address; out_value := amount |} ] |}) as H
        by (apply addOutput_Normal; by rewrite Hn).
      congruence. }
  rewrite Completion_bind_Normal.
  apply addOutput_Normal in H1 as (Ha1 & Hs1 & ->). rewrite Hn in Ha1.
  destruct (addOutput (_address this) _ _) as [t2|e] eqn:H2.
  2:{ split; [discriminate|]. intros ((_ & _ & Ha & Hs & _) & _).
      match type of H2 with addOutput ?a ?v ?t = _ =>
        assert (addOutput a v t = Normal
                  {| tb_network := tb_network t; tb_version := tb_version t;
                     tb_inputs := tb_inputs t;
                     tb_outputs := tb_outputs t ++ [ {| out_address := a; out_value := v |} ] |})
          as H by (apply addOutput_Normal; cbn [tb_network]; by rewrite Hn)
      end.
      congruence. }
  rewrite Completion_bind_Normal.
  apply addOutput_Normal in H2 as (Ha2 & Hs2 & ->).
  cbn [tb_network tb_version tb_inputs tb_outputs] in *. rewrite Hn in Ha2.
  rewrite Ho, Hv, Hn, Hi. cbn [app].
  destruct (decide (kp_network (_keyPair this) = network)) as [Hnet|Hnet].
  - rewrite sign_loop; cbn [tb_network tb_version tb_inputs tb_outputs];
      [|rewrite length_imap, length_take; lia|done].
    rewrite Completion_bind_Normal.
    rewrite take_ge, drop_ge, app_nil_r by (rewrite length_imap, length_take; lia).
    rewrite imap_sign_input.
    unfold build. cbn [tb_inputs tb_outputs].
    rewrite forallb_is_signed.
    destruct (imap (input_of (Some (_keyPair this))) (take (inputs l) unspents))
      as [|input ins] eqn:Hins.
    + split; [discriminate|]. intros ((_ & _ & _ & _ & _ & Hpos) & _).
      apply (f_equal length) in Hins. rewrite length_imap, length_take in Hins.
      cbn in Hins. lia.
    + split; [|by intros (_ & ->)].
      intros [= <-]. repeat split; try done.
      apply (f_equal length) in Hins. rewrite length_imap, length_take in Hins.
      cbn in Hins. lia.
  - destruct (inputs l) as [|k] eqn:Hk.
    + cbn [seq forEach]. rewrite Completion_bind_Normal. cbn.
      split; [discriminate|]. intros ((_ & _ & _ & _ & _ & Hpos) & _). lia.
    + rewrite sign_loop_network by (done || lia).
      split; [discriminate|]. by intros ((_ & _ & _ & _ & Hnet' & _) & _).
Qed.

(** What [_buildTransaction] throws is thrown by the library. *)
Lemma _buildTransaction_txb_Throw this address amount unspents e :
  _buildTransaction_txb this address amount unspents = Throw e -> thrown_by_library e.
Proof.
  unfold _buildTransaction_txb. intros H.
  apply Completion_bind_Throw in H as [H|(l & _ & H)].
  { revert H. apply forEach_Throw. apply forEach_body_Throw. }
  apply Completion_bind_Throw in H as [H|(t1 & _ & H)]; [by apply addOutput_Throw in H|].
  apply Completion_bind_Throw in H as [H|(t2 & _ & H)]; [by apply addOutput_Throw in H|].
  apply Completion_bind_Throw in H as [H|(t3 & _ & H)]; [|by apply build_Throw in H].
  revert H. apply forEach_Throw. intros s x e'. apply sign_Throw.
Qed.

Lemma thrown_by_library_other (e : Failure) : thrown_by_library e -> e <> InsufficientFunds.
Proof. by intros [[c ->]| ->]. Qed.

(** What [_buildTransaction] throws when the library rejects the
    change. *)
Lemma _buildTransaction_txb_change_rejected this address amount unspents l :
  forEach_unspents (target_of amount) unspents = Normal l ->
  has_matching_Script address network = true ->
  Satoshi amount = true ->
  has_matching_Script (_address this) network = true ->
  Satoshi (transferAmount l - target_of amount)%float = false ->
  _buildTransaction_txb this address amount unspents = Throw (Rejected "Satoshi").
Proof.
  intros Hloop Ha Hs Ha' Hs'. unfold _buildTransaction_txb.
  rewrite Hloop, Completion_bind_Normal.
  destruct (forEach_unspents_invariant _ _ _ Hloop) as [_ _ _ _ _ Hn _ _ _].
  assert (addOutput address amount (txb l)
          = Normal {| tb_network := tb_network (txb l); tb_version := tb_version (txb l);
                      tb_inputs := tb_inputs (txb l);
                      tb_outputs := tb_outputs (txb l)
                        ++ [ {| out_address := address; out_value := amount |} ] |}) as ->
    by (apply addOutput_Normal; by rewrite Hn).
  rewrite Completion_bind_Normal.
  unfold addOutput. cbn [tb_network]. rewrite Hn, Ha', Hs'. reflexivity.
Qed.

(** ** The wallet of the passphrase ["test"] *)

Example test_wallet_evaluated :
  toString_hex (publicKey (_keyPair test_wallet))
  = "025f81956d5826bad7d30daed2b5c8c98e72046c1ec8323da336445476183fb7ca"
  /\ _address test_wallet = "DDnFaxRJcqnQ7aANKWcxoHqg7gpcUkgzWr".
Proof. vm_compute. split; reflexivity. Qed.

Lemma test_wallet_address : _address test_wallet = "DDnFaxRJcqnQ7aANKWcxoHqg7gpcUkgzWr".
Proof. exact (proj2 test_wallet_evaluated). Qed.

Lemma test_wallet_has_Script : has_matching_Script (_address test_wallet) network = true.
Proof. rewrite test_wallet_address. vm_compute. reflexivity. Qed.

Lemma destination_has_Script : has_matching_Script destination network = true.
Proof. vm_compute. reflexivity. Qed.

Lemma DogeApi_new_test : DogeApi_new "test" = Normal test_wallet.
Proof.
  unfold DogeApi_new, ECPair_fromPrivateKey.
  assert (Secp256k1.isPrivate (crypto_sha256 (Buffer_from "test")) = true) as ->
    by (vm_compute; reflexivity).
  reflexivity.
Qed.

(** The loop on one unspent output of 5 coins, for a target it covers
    and for one it does not. *)
Lemma forEach_unspents_5 (target : float) :
  (0 <? target)%float = true ->
  forEach_unspents target [unspent_5]
  = Normal {| txb := {| tb_network := network; tb_version := 1;
                        tb_inputs := [input_of None 0 unspent_5]; tb_outputs := [] |};
              transferAmount := 500000000; inputs := 1%nat |}.
Proof.
  intros H. unfold forEach_unspents. cbn [forEach]. unfold forEach_body at 1.
  cbn [transferAmount txb inputs]. rewrite H.
  assert (addInput (txid unspent_5) 0 (setVersion 1 (TransactionBuilder_new network))
          = Normal {| tb_network := network; tb_version := 1;
                      tb_inputs := [input_of None 0 unspent_5]; tb_outputs := [] |}) as ->
    by (vm_compute; reflexivity).
  rewrite !Completion_bind_Normal. vm_compute. reflexivity.
Qed.

(** The builder asked for 1 smallest unit with one unspent output of 5
    coins: a transaction of one input and the outputs 1 and
    300000000. *)
Lemma build_of_one_unit :
  _buildTransaction_txb test_wallet destination 1 [unspent_5]
  = Normal transaction_of_one_unit.
Proof.
  apply _buildTransaction_txb_Normal. eexists. split; [|split].
  - apply forEach_unspents_5. vm_compute. reflexivity.
  - unfold accepted. cbn [transferAmount inputs].
    split; [apply destination_has_Script|]. split; [vm_compute; reflexivity|].
    split; [apply test_wallet_has_Script|]. split; [vm_compute; reflexivity|].
    split; [reflexivity|lia].
  - unfold transaction_of, transaction_of_one_unit.
    cbn [transferAmount inputs take imap]. by repeat f_equal.
Qed.

(** ** The target (C1) *)

(** C1, at the send amount of one coin: the target [createTransaction]
    makes [_buildTransaction] select for is 10000000100000000 smallest
    units, where the send amount plus the flat fee, each converted
    once, is 200000000. *)
Theorem createTransaction_target_one_coin :
  target_of (createTransaction_amount 1) = 10000000100000000%float
  /\ ((1 + TX_FEE) * MULTIPLIER = 200000000)%float.
Proof. vm_compute. split; reflexivity. Qed.

(** The same for other amounts in whole coins: the target of the code
    beside the amount plus the fee, converted once. *)
Example createTransaction_target_whole :
  (fun a => (target_of (createTransaction_amount a), (a + TX_FEE) * MULTIPLIER)%float)
    <$> [ 0; 2; 5; 1000 ]%float
  = [ (100000000, 100000000); (20000000100000000, 300000000);
      (50000000100000000, 600000000); (10000000000100000000, 100100000000) ]%float.
Proof. vm_compute. reflexivity. Qed.

(** ** Selection (C5, C10) *)

(** C5.  The loop takes the unspent outputs in the order supplied and
    stops adding once the running total has reached the target.  It
    returns whenever the transaction ids are ones the builder accepts,
    and when it returns: the inputs added are made of the first [k]
    outputs, in order, where [k] is the counter [inputs]; the running
    total is the total of these, summed in that order; no output is
    added at or after a position [j] where the total of the first [j]
    outputs is not below the target; whenever an output was added, the
    total before the last-added one was below the target (so removing
    the last-added output leaves a total below it); and an output is
    left out only once the total is not below the target.  The totals
    are the binary64 sums the loop computes, of the floored products of
    line 90. *)
Theorem selection_stops_at_target (target : float) (unspents : list Unspent) :
  (Forall accepted_txid unspents ->
   exists l, forEach_unspents target unspents = Normal l)
  /\ forall l, forEach_unspents target unspents = Normal l ->
       let k := inputs l in
       (k <= length unspents)%nat
       /\ tb_inputs (txb l) = imap (input_of None) (take k unspents)
       /\ transferAmount l = running_total (take k unspents)
       /\ (forall j, (running_total (take j unspents) <? target)%float = false -> (k <= j)%nat)
       /\ ((0 < k)%nat ->
           exists last, unspents !! (k - 1)%nat = Some last
             /\ transferAmount l
                = (running_total (take (k - 1) unspents) + units last)%float
             /\ (running_total (take (k - 1) unspents) <? target)%float = true)
       /\ ((k < length unspents)%nat -> (transferAmount l <? target)%float = false).
Proof.
  split; [apply forEach_unspents_returns|].
  intros l Hloop k.
  destruct (forEach_unspents_invariant _ _ _ Hloop) as [Hc Ht Hi _ _ _ Hb Hr _].
  change (inputs l) with k in Hc, Ht, Hi, Hb, Hr. clearbody k.
  split; [done|]. split; [done|]. split; [done|]. split; [|split; [|done]].
  - intros j Hj. destruct (decide (k <= j)%nat) as [|Hn]; [done|].
    specialize (Hb j ltac:(lia)). congruence.
  - intros Hk.
    destruct (lookup_lt_is_Some_2 unspents (k - 1)%nat ltac:(lia)) as [last Hl].
    exists last. split; [done|]. split.
    + rewrite Ht. replace k with (S (k - 1)) at 1 by lia.
      by apply running_total_take_S.
    + apply Hb. lia.
Qed.

(** Unspent outputs of 0.29, 0.71 and 1 coin against a target of one
    coin: 0.29 coin counts as 28999999 units, the first two outputs
    total 99999999, and the third is added. *)
Example selection_stops_at_target_run :
  exists l, forEach_unspents 100000000 unspents_of_a_coin = Normal l
    /\ inputs l = 3%nat
    /\ transferAmount l = 199999999%float
    /\ units <$> unspents_of_a_coin = [ 28999999; 71000000; 100000000 ]%float
    /\ prev_txid <$> tb_inputs (txb l) = [ txid_aa; txid_bb; txid_cc ].
Proof. vm_compute. eexists. repeat split; reflexivity. Qed.

Lemma forEach_vout {S} (f : S -> Unspent -> Completion S) (v : Unspent -> nat)
    (us : list Unspent) :
  (forall s tx, f s (with_vout v tx) = f s tx) ->
  forall s, forEach f (with_vout v <$> us) s = forEach f us s.
Proof.
  intros Hf. induction us as [|tx us IH]; intros s; [done|].
  cbn [fmap list_fmap forEach]. rewrite Hf.
  destruct (f s tx) as [s'|e]; [apply IH|done].
Qed.

Lemma forEach_unspents_vout (v : Unspent -> nat) target unspents :
  forEach_unspents target (with_vout v <$> unspents)
  = forEach_unspents target unspents.
Proof. unfold forEach_unspents. by apply forEach_vout. Qed.

Lemma _buildTransaction_txb_vout (v : Unspent -> nat) this address amount unspents :
  _buildTransaction_txb this address amount (with_vout v <$> unspents)
  = _buildTransaction_txb this address amount unspents.
Proof. unfold _buildTransaction_txb. by rewrite forEach_unspents_vout. Qed.

(** What a built transaction is made of. *)
Lemma _buildTransaction_txb_built this address amount unspents t :
  _buildTransaction_txb this address amount unspents = Normal t ->
  exists l, loop_invariant (target_of amount) unspents l
    /\ accepted this address amount l
    /\ t = transaction_of this address amount unspents l
    /\ length (tb_inputs t) = inputs l.
Proof.
  intros H. apply _buildTransaction_txb_Normal in H as (l & Hloop & Hacc & ->).
  pose proof (forEach_unspents_invariant _ _ _ Hloop) as Hinv.
  exists l. split; [done|]. split; [done|]. split; [done|].
  unfold transaction_of. cbn [tb_inputs]. rewrite length_imap, length_take.
  destruct Hinv. lia.
Qed.

(** C10.  The inputs of a built transaction are made of a prefix of
    the supplied list: for some [k], every output before position [k]
    is used and none from position [k] on.  The input at position [i]
    refers to the [txid] of the [i]-th supplied output with
    previous-output index [i], the value of the counter when it was
    added; the [vout] an unspent output carries plays no part, and
    replacing it changes nothing in what is built. *)
Theorem inputs_are_prefix_numbered_by_counter (this : DogeApi) (address : string)
    (amount : float) (unspents : list Unspent) (t : TransactionBuilder) :
  _buildTransaction_txb this address amount unspents = Normal t ->
  exists k,
    (k <= length unspents)%nat
    /\ tb_inputs t = imap (input_of (Some (_keyPair this))) (take k unspents)
    /\ length (tb_inputs t) = k
    /\ (forall i input, tb_inputs t !! i = Some input ->
          prev_index input = i
          /\ exists tx, unspents !! i = Some tx /\ prev_txid input = txid tx)
    /\ (forall v : Unspent -> nat,
          _buildTransaction_txb this address amount (with_vout v <$> unspents)
          = Normal t).
Proof.
  intros H.
  destruct (_buildTransaction_txb_built _ _ _ _ _ H) as (l & Hinv & _ & -> & Hlen).
  exists (inputs l). split; [by destruct Hinv|]. split; [done|]. split; [done|].
  split.
  - intros i input. unfold transaction_of. cbn [tb_inputs]. rewrite list_lookup_imap.
    destruct (take (inputs l) unspents !! i) as [tx|] eqn:Htx; [|done].
    simpl. intros [= <-]. split; [done|].
    exists tx. split; [|done].
    apply lookup_take_Some in Htx. by destruct Htx.
  - intros v. by rewrite _buildTransaction_txb_vout.
Qed.

Lemma inputs_are_prefix_numbered_by_counter_run :
  exists k,
    (k <= length [unspent_5])%nat
    /\ tb_inputs transaction_of_one_unit
       = imap (input_of (Some (_keyPair test_wallet))) (take k [unspent_5])
    /\ length (tb_inputs transaction_of_one_unit) = k
    /\ (forall i input,
          tb_inputs transaction_of_one_unit !! i = Some input ->
          prev_index input = i
          /\ exists tx, [unspent_5] !! i = Some tx /\ prev_txid input = txid tx)
    /\ (forall v : Unspent -> nat,
          _buildTransaction_txb test_wallet destination 1 (with_vout v <$> [unspent_5])
          = Normal transaction_of_one_unit).
Proof.
  apply (inputs_are_prefix_numbered_by_counter test_wallet destination 1 [unspent_5]).
  apply build_of_one_unit.
Defined.

(** ** Funds and outputs (C2, C3, C4) *)

(** When the running total stays below the target, the loop adds every
    unspent output. *)
Lemma forEach_unspents_all target unspents l :
  (forall j, (j <= length unspents)%nat ->
             (running_total (take j unspents) <? target)%float = true) ->
  forEach_unspents target unspents = Normal l ->
  inputs l = length unspents /\ transferAmount l = running_total unspents.
Proof.
  intros Hlow Hloop.
  destruct (forEach_unspents_invariant _ _ _ Hloop) as [Hc Ht _ _ _ _ _ Hr _].
  assert (inputs l = length unspents) as Hk.
  { destruct (decide (inputs l < length unspents)%nat) as [Hs|]; [|lia].
    specialize (Hr Hs). rewrite Ht, Hlow in Hr by lia. done. }
  split; [done|]. by rewrite Ht, Hk, take_ge.
Qed.

Lemma running_total_stays_below target unspents :
  (forall j, (j <= length unspents)%nat ->
             (running_total (take j unspents) <? target)%float = true) ->
  (running_total unspents <? target)%float = true.
Proof.
  intros Hlow. specialize (Hlow (length unspents) ltac:(lia)).
  by rewrite take_ge in Hlow by lia.
Qed.

Lemma change_below_zero_rejected (total target : float) :
  (total <? target)%float = true -> Satoshi (total - target)%float = false.
Proof.
  intros H. apply sub_below in H.
  destruct (Satoshi (total - target)%float) eqn:E; [|done].
  apply Satoshi_nonneg in E. congruence.
Qed.

(** C2, as the code has it.  [_buildTransaction] has no check of the
    funds and no [InsufficientFunds] failure.  For every list of
    unspent outputs whose running total stays below the target, it
    builds no transaction: it throws, and what it throws is an
    exception of the library; when the library accepts the transaction
    ids, the two addresses and the amount, every unspent output is made
    an input and the exception is the library's rejection of the change
    output, whose value, the total minus the target, is below zero. *)
Theorem insufficient_funds_build_throws (this : DogeApi) (address : string)
    (amount : float) (unspents : list Unspent) :
  (forall j, (j <= length unspents)%nat ->
             (running_total (take j unspents) <? target_of amount)%float = true) ->
  (exists e, _buildTransaction_txb this address amount unspents = Throw e
             /\ thrown_by_library e /\ e <> InsufficientFunds)
  /\ (running_total unspents - target_of amount <? 0)%float = true
  /\ (Forall accepted_txid unspents ->
      has_matching_Script address network = true ->
      Satoshi amount = true ->
      has_matching_Script (_address this) network = true ->
      (exists l, forEach_unspents (target_of amount) unspents = Normal l
                 /\ inputs l = length unspents
                 /\ transferAmount l = running_total unspents)
      /\ _buildTransaction_txb this address amount unspents = Throw (Rejected "Satoshi")).
Proof.
  intros Hlow. split; [|split].
  - destruct (_buildTransaction_txb this address amount unspents) as [t|e] eqn:H.
    + apply _buildTransaction_txb_Normal in H as (l & Hloop & Hacc & _).
      destruct (forEach_unspents_all _ _ _ Hlow Hloop) as [_ Ht].
      destruct Hacc as (_ & _ & _ & Hs & _).
      rewrite Ht, change_below_zero_rejected in Hs; [done|].
      by apply running_total_stays_below.
    + exists e. split; [done|].
      apply _buildTransaction_txb_Throw in H. split; [done|].
      by apply thrown_by_library_other.
  - apply sub_below_zero. apply running_total_stays_below. exact Hlow.
  - intros Htx Ha Hs Ha'.
    destruct (forEach_unspents_returns (target_of amount) unspents Htx) as [l Hloop].
    destruct (forEach_unspents_all _ _ _ Hlow Hloop) as [Hk Ht].
    split; [by exists l|].
    apply (_buildTransaction_txb_change_rejected _ _ _ _ l); try done.
    rewrite Ht. apply change_below_zero_rejected.
    apply running_total_stays_below. exact Hlow.
Qed.

Lemma insufficient_funds_build_throws_half_coin :
  (exists e, _buildTransaction_txb test_wallet destination 2 [unspent_half] = Throw e
             /\ thrown_by_library e /\ e <> InsufficientFunds)
  /\ (running_total [unspent_half] - target_of 2 <? 0)%float = true
  /\ (Forall accepted_txid [unspent_half] ->
      has_matching_Script destination network = true ->
      Satoshi 2 = true ->
      has_matching_Script (_address test_wallet) network = true ->
      (exists l, forEach_unspents (target_of 2) [unspent_half] = Normal l
                 /\ inputs l = length [unspent_half]
                 /\ transferAmount l = running_total [unspent_half])
      /\ _buildTransaction_txb test_wallet destination 2 [unspent_half]
         = Throw (Rejected "Satoshi")).
Proof.
  apply (insufficient_funds_build_throws test_wallet destination 2 [unspent_half]).
  intros [|[|j]] Hj; [vm_compute; reflexivity|vm_compute; reflexivity|simpl in Hj; lia].
Defined.

Lemma accepted_txid_aa (a : float) (v : nat) :
  accepted_txid {| txid := txid_aa; amount := a; vout := v |}.
Proof. split; vm_compute; reflexivity. Qed.

(** The loop on one unspent output of half a coin. *)
Lemma forEach_unspents_half (target : float) :
  (0 <? target)%float = true ->
  forEach_unspents target [unspent_half]
  = Normal {| txb := {| tb_network := network; tb_version := 1;
                        tb_inputs := [input_of None 0 unspent_half]; tb_outputs := [] |};
              transferAmount := 50000000; inputs := 1%nat |}.
Proof.
  intros H. unfold forEach_unspents. cbn [forEach]. unfold forEach_body at 1.
  cbn [transferAmount txb inputs]. rewrite H.
  assert (addInput (txid unspent_half) 0 (setVersion 1 (TransactionBuilder_new network))
          = Normal {| tb_network := network; tb_version := 1;
                      tb_inputs := [input_of None 0 unspent_half]; tb_outputs := [] |}) as ->
    by (vm_compute; reflexivity).
  rewrite !Completion_bind_Normal. vm_compute. reflexivity.
Qed.

(** At the input of the specification's scenario (unspent outputs of
    0.5 coin, the builder asked for 2 with the fee of 1, target
    300000000 units) the build does not report [InsufficientFunds]:
    the change it computes is -250000000, and what is thrown is the
    library's rejection of that value.  Reached through
    [createTransaction] with a send amount of 2 coins it is the same,
    with the change -20000000050000000. *)
Lemma insufficient_funds_not_reported :
  running_total [unspent_half] = 50000000%float
  /\ target_of 2 = 300000000%float
  /\ (running_total [unspent_half] - target_of 2 = -250000000)%float
  /\ _buildTransaction_txb test_wallet destination 2 [unspent_half]
     = Throw (Rejected "Satoshi")
  /\ _buildTransaction_txb test_wallet destination 2 [unspent_half]
     <> Throw InsufficientFunds
  /\ (running_total [unspent_half] - target_of (createTransaction_amount 2)
      = -20000000050000000)%float
  /\ _buildTransaction_txb test_wallet destination (createTransaction_amount 2)
       [unspent_half]
     = Throw (Rejected "Satoshi").
Proof.
  assert (_buildTransaction_txb test_wallet destination 2 [unspent_half]
          = Throw (Rejected "Satoshi")) as H2.
  { eapply _buildTransaction_txb_change_rejected.
    - apply forEach_unspents_half. vm_compute. reflexivity.
    - apply destination_has_Script.
    - vm_compute. reflexivity.
    - apply test_wallet_has_Script.
    - vm_compute. reflexivity. }
  split; [vm_compute; reflexivity|]. split; [vm_compute; reflexivity|].
  split; [vm_compute; reflexivity|]. split; [exact H2|].
  split; [rewrite H2; discriminate|]. split; [vm_compute; reflexivity|].
  eapply _buildTransaction_txb_change_rejected.
  - apply forEach_unspents_half. vm_compute. reflexivity.
  - apply destination_has_Script.
  - vm_compute. reflexivity.
  - apply test_wallet_has_Script.
  - vm_compute. reflexivity.
Qed.

(** C3, as the code has it.  For every transaction built, with [T] the
    running total of the selected inputs (the first
    [length (tb_inputs t)] unspent outputs) and [G] the target, both as
    the code computes them in binary64: the two outputs are the amount
    sent and the change [T - G]; the change is a [Satoshi] value, so it
    is not negative, and [T] is not below [G]; the amount sent is one
    as well. *)
Theorem outputs_are_payment_and_change (this : DogeApi) (address : string)
    (amount : float) (unspents : list Unspent) (t : TransactionBuilder) :
  _buildTransaction_txb this address amount unspents = Normal t ->
  let T := running_total (take (length (tb_inputs t)) unspents) in
  let G := target_of amount in
  output_values t = [amount; (T - G)%float]
  /\ Satoshi (T - G)%float = true
  /\ (0 <=? T - G)%float = true
  /\ (T <? G)%float = false
  /\ Satoshi amount = true
  /\ (0 <=? amount)%float = true.
Proof.
  intros H T G.
  destruct (_buildTransaction_txb_built _ _ _ _ _ H) as (l & Hinv & Hacc & -> & Hlen).
  destruct Hinv as [_ Ht _ _ _ _ _ _ _].
  destruct Hacc as (_ & Hs & _ & Hs' & _).
  unfold T, G. rewrite Hlen, <- Ht.
  split; [done|]. split; [done|].
  split; [by apply Satoshi_nonneg|].
  split; [|split; [done|by apply Satoshi_nonneg]].
  destruct (transferAmount l <? target_of amount)%float eqn:E; [|done].
  apply change_below_zero_rejected in E. congruence.
Qed.

Lemma outputs_are_payment_and_change_run :
  let T := running_total (take (length (tb_inputs transaction_of_one_unit)) [unspent_5]) in
  let G := target_of 1 in
  output_values transaction_of_one_unit = [1%float; (T - G)%float]
  /\ Satoshi (T - G)%float = true
  /\ (0 <=? T - G)%float = true
  /\ (T <? G)%float = false
  /\ Satoshi 1 = true
  /\ (0 <=? 1)%float = true.
Proof.
  apply (outputs_are_payment_and_change test_wallet destination 1 [unspent_5]).
  apply build_of_one_unit.
Defined.

(** A build with ample funds (one unspent output of 5 coins, the
    builder asked for 1 unit): the selected input counts 500000000 and
    the target is 200000000, yet the two outputs, 1 and 300000000, sum
    to 300000001, not to 500000000. *)
Lemma outputs_do_not_sum_to_inputs :
  exists t,
    _buildTransaction_txb test_wallet destination 1 [unspent_5] = Normal t
    /\ length (tb_inputs t) = 1%nat
    /\ running_total (take (length (tb_inputs t)) [unspent_5]) = 500000000%float
    /\ target_of 1 = 200000000%float
    /\ output_values t = [1; 300000000]%float
    /\ sum_values (output_values t) = 300000001%float
    /\ (sum_values (output_values t) =? 500000000)%float = false.
Proof.
  exists transaction_of_one_unit. split; [apply build_of_one_unit|].
  cbn [transaction_of_one_unit tb_inputs tb_outputs output_values length take
       fmap list_fmap out_value].
  repeat split; vm_compute; reflexivity.
Qed.

(** The change is the binary64 difference of the two binary64 numbers:
    with unspent outputs of 0.00390625 and 100000000 coins and the
    builder asked for 99999999 units (a target of 10^16), the total
    10000000000390625 is not a binary64 number, the loop holds
    10000000000390624, and the change is 390624. *)
Example change_of_a_rounded_total :
  let us := [ {| txid := txid_aa; amount := 0.00390625; vout := 0 |};
              {| txid := txid_bb; amount := 100000000; vout := 0 |} ] in
  units <$> us = [ 390625; 10000000000000000 ]%float
  /\ target_of 99999999 = 10000000000000000%float
  /\ running_total us = 10000000000390624%float
  /\ (running_total us - target_of 99999999 = 390624)%float
  /\ exists l, forEach_unspents (target_of 99999999) us = Normal l
       /\ inputs l = 2%nat /\ transferAmount l = 10000000000390624%float.
Proof. vm_compute. repeat split; try reflexivity. eexists. repeat split; reflexivity. Qed.

(** C4, as the code runs.  For the wallet of the passphrase ["test"],
    one unspent output of 5 coins with the txid ["aa" * 32] and a
    request to send 1 coin: [createTransaction] hands 100000000 units
    to [_buildTransaction], whose target is then 10000000100000000; the
    loop adds the one output as input 0 and holds 500000000; the
    payment output of 100000000 is accepted, the change is
    -9999999600000000, and the library rejects it: no transaction is
    built and no hex returned. *)
Theorem end_to_end_one_coin_throws :
  DogeApi_new "test" = Normal test_wallet
  /\ createTransaction_amount 1 = 100000000%float
  /\ target_of (createTransaction_amount 1) = 10000000100000000%float
  /\ (exists l,
        forEach_unspents (target_of (createTransaction_amount 1)) [unspent_5] = Normal l
        /\ tb_inputs (txb l) = [input_of None 0 unspent_5]
        /\ transferAmount l = 500000000%float
        /\ (transferAmount l - target_of (createTransaction_amount 1)
            = -9999999600000000)%float
        /\ Satoshi (transferAmount l - target_of (createTransaction_amount 1))%float = false)
  /\ _buildTransaction_txb test_wallet destination (createTransaction_amount 1) [unspent_5]
     = Throw (Rejected "Satoshi")
  /\ (forall toBuffer,
        createTransaction_then toBuffer test_wallet destination (createTransaction_amount 1)
          [unspent_5]
        = Throw (Rejected "Satoshi"))
  /\ (fun v => Satoshi v) <$> [ 100000000; 400000000 ]%float = [ true; true ].
Proof.
  assert (forEach_unspents (target_of (createTransaction_amount 1)) [unspent_5]
          = Normal {| txb := {| tb_network := network; tb_version := 1;
                                tb_inputs := [input_of None 0 unspent_5];
                                tb_outputs := [] |};
                      transferAmount := 500000000; inputs := 1%nat |}) as Hloop
    by (apply forEach_unspents_5; vm_compute; reflexivity).
  assert (_buildTransaction_txb test_wallet destination (createTransaction_amount 1)
            [unspent_5] = Throw (Rejected "Satoshi")) as Hbuild.
  { eapply _buildTransaction_txb_change_rejected.
    - exact Hloop.
    - apply destination_has_Script.
    - vm_compute. reflexivity.
    - apply test_wallet_has_Script.
    - vm_compute. reflexivity. }
  split; [apply DogeApi_new_test|].
  split; [vm_compute; reflexivity|]. split; [vm_compute; reflexivity|].
  split; [|split; [exact Hbuild|split]].
  - eexists. split; [exact Hloop|]. cbn [txb tb_inputs transferAmount].
    repeat split; vm_compute; reflexivity.
  - intros toBuffer. unfold createTransaction_then, _buildTransaction.
    rewrite Hbuild. reflexivity.
  - vm_compute. reflexivity.
Qed.

(** ** The endpoint client (C6) *)

Lemma Object_prototype_properties key :
  key ∈ Object_prototype -> key ∈ AxiosInstance_properties.
Proof.
  intros H. unfold AxiosInstance_properties. rewrite !elem_of_app. auto.
Qed.

Lemma get_property_uncached (o : Clients) (url : string) :
  (forall c, get_property o url <> Client c) ->
  url ∉ AxiosInstance_properties ->
  get_property o url = Undefined.
Proof.
  intros Hnone Hurl. destruct o as [own|c]; simpl in *.
  - destruct (own !! url) as [c|]; [by destruct (Hnone c)|].
    rewrite bool_decide_eq_false_2; [done|].
    intros H. by apply Hurl, Object_prototype_properties.
  - destruct (String.eqb url "length") eqn:E.
    + exfalso. apply Hurl. apply String.eqb_eq in E. rewrite E.
      refine (bool_decide_unpack _ _). vm_compute. exact I.
    + by rewrite bool_decide_eq_false_2.
Qed.

Lemma _getClient_uncached (this : DogeApi) (url : string) :
  (forall c, get_property (_clients this) url <> Client c) ->
  url ∉ AxiosInstance_properties ->
  _getClient url this = (Undefined, set_clients (Instance (axios_create url)) this).
Proof.
  intros Hnone Hurl. unfold _getClient.
  rewrite (get_property_uncached _ _ Hnone Hurl). simpl.
  destruct (String.eqb url "length") eqn:E.
  - exfalso. apply Hurl. apply String.eqb_eq in E. rewrite E.
    refine (bool_decide_unpack _ _). vm_compute. exact I.
  - by rewrite bool_decide_eq_false_2.
Qed.

Lemma call_method_no_client (v : Value) (m : Method) (url : string)
    (data : list (string * string)) :
  (forall c, v <> Client c) ->
  exists message, call_method v m url data = Throw (TypeError message).
Proof.
  intros Hv. destruct v as [| |name|c]; simpl; [by eexists|by eexists|by eexists|].
  by destruct (Hv c).
Qed.

Lemma _getClient_no_client (this : DogeApi) (url : string) :
  (forall u c, get_property (_clients this) u <> Client c) ->
  forall c, fst (_getClient url this) <> Client c.
Proof.
  intros Hnone c. unfold _getClient.
  destruct (truthy (get_property (_clients this) url)); simpl; [apply Hnone|].
  destruct (String.eqb _ _); [done|]. by destruct (bool_decide _).
Qed.

(** C6.  On an instance on which no endpoint client is cached,
    [_getClient], for an endpoint [url] (a string that is not the name
    of a property of an axios instance), assigns the new axios instance
    to [_clients] itself, where a cache would hold it under the key
    [url], and returns [this._clients[url]], which is [undefined], not
    the new client; and [_get] and [_post] throw a [TypeError] in place
    of issuing a request. *)
Theorem getClient_replaces_clients (this : DogeApi) (url : string) :
  (forall u c, get_property (_clients this) u <> Client c) ->
  let this' := snd (_getClient url this) in
  (url ∉ AxiosInstance_properties ->
     _clients this' = Instance (axios_create url)
     /\ (forall own, _clients this' <> PlainObject (<[url := axios_create url]> own))
     /\ fst (_getClient url this) = Undefined
     /\ fst (_getClient url this) <> Client (axios_create url))
  /\ (forall path params, exists message,
        _get url path params this = (Throw (TypeError message), this'))
  /\ (forall path data, exists message,
        _post url path data this = (Throw (TypeError message), this')).
Proof.
  intros Hnone this'. split; [|split].
  - intros Hurl. unfold this'.
    rewrite (_getClient_uncached _ _ (Hnone url) Hurl). by simpl.
  - intros path params. unfold _get, this'.
    destruct (_getClient url this) as [v that] eqn:E.
    destruct (call_method_no_client v GET path params) as [message ->];
      [|by eexists].
    pose proof (_getClient_no_client this url Hnone) as H. by rewrite E in H.
  - intros path data. unfold _post, this'.
    destruct (_getClient url this) as [v that] eqn:E.
    destruct (call_method_no_client v POST path
                (fold_left (fun form kv => form ++ [kv]) data [])) as [message ->];
      [|by eexists].
    pose proof (_getClient_no_client this url Hnone) as H. by rewrite E in H.
Qed.

Lemma getClient_replaces_clients_fresh :
  let this' := snd (_getClient endpoint_url test_wallet) in
  (endpoint_url ∉ AxiosInstance_properties ->
     _clients this' = Instance (axios_create endpoint_url)
     /\ (forall own,
           _clients this' <> PlainObject (<[endpoint_url := axios_create endpoint_url]> own))
     /\ fst (_getClient endpoint_url test_wallet) = Undefined
     /\ fst (_getClient endpoint_url test_wallet) <> Client (axios_create endpoint_url))
  /\ (forall path params, exists message,
        _get endpoint_url path params test_wallet = (Throw (TypeError message), this'))
  /\ (forall path data, exists message,
        _post endpoint_url path data test_wallet = (Throw (TypeError message), this')).
Proof.
  apply (getClient_replaces_clients test_wallet endpoint_url).
  intros u c. cbn [_clients test_wallet get_property].
  rewrite lookup_empty. by destruct (bool_decide _).
Defined.

Example endpoint_url_is_no_property : endpoint_url ∉ AxiosInstance_properties.
Proof. refine (bool_decide_unpack _ _). vm_compute. exact I. Qed.

Example _getClient_fresh :
  fst (_getClient endpoint_url test_wallet) = Undefined
  /\ _clients (snd (_getClient endpoint_url test_wallet))
     = Instance {| baseURL := endpoint_url |}.
Proof.
  rewrite _getClient_uncached; [done| |apply endpoint_url_is_no_property].
  intros c. cbn [_clients test_wallet get_property].
  rewrite lookup_empty. by destruct (bool_decide _).
Qed.

(** Under the key ["length"] an axios instance has the number 0: the
    instance is replaced once more, and what is returned is 0. *)
Example _getClient_length :
  _getClient "length" (set_clients (Instance (axios_create endpoint_url)) test_wallet)
  = (Zero, set_clients (Instance (axios_create "length")) test_wallet).
Proof. reflexivity. Qed.

(** The failure is not that of the first call alone: an instance that
    holds no client holds none after the call either, so each later
    call on it fails the same way. *)
Lemma _getClient_never_caches (this : DogeApi) (url : string) :
  (forall u c, get_property (_clients this) u <> Client c) ->
  forall u c, get_property (_clients (snd (_getClient url this))) u <> Client c.
Proof.
  intros Hnone u c. unfold _getClient.
  destruct (truthy (get_property (_clients this) url)); simpl; [apply Hnone|].
  destruct (String.eqb _ _); [done|]. by destruct (bool_decide _).
Qed.

(** With no client to send it, [createTransaction] throws before the
    unspent outputs are asked for, on every instance on which no client
    is cached. *)
Lemma createTransaction_throws (toBuffer : TransactionBuilder -> list byte)
    (reply : Request -> list Unspent) (address : string) (amount : float)
    (this : DogeApi) (url : string) :
  (forall u c, get_property (_clients this) u <> Client c) ->
  exists message,
    fst (createTransaction toBuffer url reply address amount this)
    = Throw (TypeError message).
Proof.
  intros Hnone. unfold createTransaction, _get.
  destruct (_getClient url this) as [v that] eqn:E.
  destruct (call_method_no_client v GET
              ("/addr/" +:+ DogeApi_address this +:+ "/utxo?noCache=1") [])
    as [message ->]; [|by eexists].
  pose proof (_getClient_no_client this url Hnone) as H. by rewrite E in H.
Qed.

Lemma getBalance_throws (this : DogeApi) (url : string) :
  (forall u c, get_property (_clients this) u <> Client c) ->
  exists message, fst (getBalance url this) = Throw (TypeError message).
Proof.
  intros Hnone. unfold getBalance, _get.
  destruct (_getClient url this) as [v that] eqn:E.
  destruct (call_method_no_client v GET
              ("/addr/" +:+ DogeApi_address this +:+ "/balance") [])
    as [message ->]; [|by eexists].
  pose proof (_getClient_no_client this url Hnone) as H. by rewrite E in H.
Qed.

Lemma sendTransaction_throws (this : DogeApi) (url txHex : string) :
  (forall u c, get_property (_clients this) u <> Client c) ->
  exists message, fst (sendTransaction url txHex this) = Throw (TypeError message).
Proof.
  intros Hnone. unfold sendTransaction, _post.
  destruct (_getClient url this) as [v that] eqn:E.
  destruct (call_method_no_client v POST "/tx/send"
              (fold_left (fun form kv => form ++ [kv]) [("rawtx"%string, txHex)] []))
    as [message ->]; [|by eexists].
  pose proof (_getClient_no_client this url Hnone) as H. by rewrite E in H.
Qed.

(** ** Hex strings and the transaction identifier (C9) *)

Lemma sha256_length (b : list byte) : length (sha256 b) = 32%nat.
Proof. unfold sha256, SHA256.hash, SHA256.digest. by rewrite !length_app. Qed.

Lemma Buffer_from_hex_byte (b : byte) (s : string) :
  Buffer_from_hex (byte_hex b +:+ s) = b :: Buffer_from_hex s.
Proof. destruct b; reflexivity. Qed.

(** Decoding the hex encoding of a buffer gives the buffer back. *)
Lemma Buffer_from_hex_toString (bs : list byte) :
  Buffer_from_hex (toString_hex bs) = bs.
Proof.
  induction bs as [|b bs IH]; [done|].
  change (toString_hex (b :: bs)) with (byte_hex b +:+ toString_hex bs).
  by rewrite Buffer_from_hex_byte, IH.
Qed.

Lemma matches_dot2_byte (b : byte) (s : string) :
  matches_dot2 (byte_hex b +:+ s) = byte_hex b :: matches_dot2 s.
Proof. destruct b; reflexivity. Qed.

Lemma matches_dot2_toString (bs : list byte) :
  matches_dot2 (toString_hex bs) = byte_hex <$> bs.
Proof.
  induction bs as [|b bs IH]; [done|].
  change (toString_hex (b :: bs)) with (byte_hex b +:+ toString_hex bs).
  by rewrite matches_dot2_byte, IH.
Qed.

Lemma string_app_nil_r (s : string) : s +:+ "" = s.
Proof.
  induction s as [|c s IH]; [done|].
  change (String c s +:+ "") with (String c (s +:+ "")). by rewrite IH.
Qed.

Lemma string_app_assoc (s1 s2 s3 : string) : (s1 +:+ s2) +:+ s3 = s1 +:+ (s2 +:+ s3).
Proof.
  induction s1 as [|c s1 IH]; [done|].
  change ((String c s1 +:+ s2) +:+ s3) with (String c ((s1 +:+ s2) +:+ s3)).
  by rewrite IH.
Qed.

Lemma toString_hex_app (l1 l2 : list byte) :
  toString_hex (l1 ++ l2) = toString_hex l1 +:+ toString_hex l2.
Proof.
  induction l1 as [|b l1 IH]; [done|].
  change (toString_hex ((b :: l1) ++ l2)) with (byte_hex b +:+ toString_hex (l1 ++ l2)).
  change (toString_hex (b :: l1)) with (byte_hex b +:+ toString_hex l1).
  by rewrite IH, string_app_assoc.
Qed.

Lemma Array_join_byte_hex (bs : list byte) :
  Array_join (byte_hex <$> bs) = toString_hex bs.
Proof.
  unfold Array_join. induction bs as [|b bs IH]; [done|].
  destruct bs as [|b' bs]; [by simpl; rewrite string_app_nil_r|].
  change (String.concat "" (byte_hex <$> b :: b' :: bs))
    with (byte_hex b +:+ "" +:+ String.concat "" (byte_hex <$> b' :: bs)).
  by rewrite IH.
Qed.

Lemma toString_hex_length (bs : list byte) :
  String.length (toString_hex bs) = (2 * length bs)%nat.
Proof.
  induction bs as [|b bs IH]; [done|].
  change (String.length (toString_hex (b :: bs)))
    with (S (S (String.length (toString_hex bs)))).
  rewrite IH. simpl. lia.
Qed.

(** Lines 58-60 on the hex encoding of [raw]: the double SHA-256 of
    [raw], its 32 bytes reversed, in hex. *)
Lemma createTransaction_txid_toString (raw : list byte) :
  createTransaction_txid (toString_hex raw)
  = Normal (toString_hex (reverse (sha256 (sha256 raw)))).
Proof.
  unfold createTransaction_txid, crypto_sha256.
  rewrite Buffer_from_hex_toString.
  unfold String_match_dot2. rewrite matches_dot2_toString.
  pose proof (sha256_length (sha256 raw)) as Hlen.
  destruct (sha256 (sha256 raw)) as [|b d] eqn:Hd; [done|].
  cbn [fmap list_fmap]. f_equal.
  by rewrite <- fmap_cons, <- fmap_reverse, Array_join_byte_hex.
Qed.

Lemma createTransaction_then_closed (toBuffer : TransactionBuilder -> list byte)
    (this : DogeApi) (address : string) (amount : float) (unspents : list Unspent)
    (t : TransactionBuilder) :
  _buildTransaction_txb this address amount unspents = Normal t ->
  createTransaction_then toBuffer this address amount unspents
  = Normal {| Result.hex := toString_hex (toBuffer t);
              Result.txid := toString_hex (reverse (sha256 (sha256 (toBuffer t)))) |}.
Proof.
  intros H. unfold createTransaction_then, _buildTransaction.
  rewrite H, !Completion_bind_Normal, createTransaction_txid_toString.
  by rewrite Completion_bind_Normal.
Qed.

Lemma createTransaction_then_Throw (toBuffer : TransactionBuilder -> list byte)
    (this : DogeApi) (address : string) (amount : float) (unspents : list Unspent)
    (e : Failure) :
  _buildTransaction_txb this address amount unspents = Throw e ->
  createTransaction_then toBuffer this address amount unspents = Throw e.
Proof.
  intros H. unfold createTransaction_then, _buildTransaction. by rewrite H.
Qed.

(** C9.  Whatever the serialization, whenever a transaction is built,
    the callback of [createTransaction] resolves to the hex of the
    built transaction together with a txid that is the double SHA-256
    of the raw serialized bytes, the 32 bytes of the digest reversed
    and then hex encoded: a string of 64 hex characters. *)
Theorem txid_is_reversed_double_sha256 (toBuffer : TransactionBuilder -> list byte)
    (this : DogeApi) (address : string) (amount : float) (unspents : list Unspent)
    (t : TransactionBuilder) :
  _buildTransaction_txb this address amount unspents = Normal t ->
  exists r,
    createTransaction_then toBuffer this address amount unspents = Normal r
    /\ Result.hex r = toString_hex (toBuffer t)
    /\ Buffer_from_hex (Result.hex r) = toBuffer t
    /\ Result.txid r = toString_hex (reverse (sha256 (sha256 (toBuffer t))))
    /\ String.length (Result.txid r) = 64%nat.
Proof.
  intros H. eexists. split; [by apply createTransaction_then_closed|].
  cbn [Result.hex Result.txid].
  split; [reflexivity|]. split; [apply Buffer_from_hex_toString|].
  split; [reflexivity|].
  by rewrite toString_hex_length, length_reverse, sha256_length.
Qed.

Lemma txid_is_reversed_double_sha256_run :
  exists r,
    createTransaction_then (fun _ => []) test_wallet destination 1 [unspent_5] = Normal r
    /\ Result.hex r = toString_hex []
    /\ Buffer_from_hex (Result.hex r) = []
    /\ Result.txid r = toString_hex (reverse (sha256 (sha256 [])))
    /\ String.length (Result.txid r) = 64%nat.
Proof.
  apply (txid_is_reversed_double_sha256 (fun _ => []) test_wallet destination 1 [unspent_5]
           transaction_of_one_unit).
  apply build_of_one_unit.
Defined.

Example txid_of_empty_buffer :
  createTransaction_txid ""
  = Normal "56944c5d3f98413ef45cf54545538103cc9f298e0575820ad3591376e2e0f65d".
Proof. vm_compute. reflexivity. Qed.

(** ** Key derivation (C8) *)

(** What the constructor builds, when the hash is a valid scalar. *)
Lemma DogeApi_new_Normal (passphrase : string) (this : DogeApi) :
  DogeApi_new passphrase = Normal this ->
  let pwHash := sha256 (Buffer_from passphrase) in
  Secp256k1.isPrivate pwHash = true
  /\ this = {| _keyPair := {| privateKey := pwHash;
                              publicKey := Secp256k1.pointFromScalar pwHash;
                              kp_network := network |};
               _address := p2pkh_address (Secp256k1.pointFromScalar pwHash)
                             (pubKeyHash network);
               _clients := PlainObject ∅ |}.
Proof.
  unfold DogeApi_new, ECPair_fromPrivateKey, crypto_sha256.
  destruct (Secp256k1.isPrivate (sha256 (Buffer_from passphrase))); [|discriminate].
  rewrite Completion_bind_Normal. intros [= <-]. by split.
Qed.

(** C8.  The private key of a wallet is the SHA-256 hash of the bytes
    of its passphrase: one application of the hash function to the
    passphrase as it is, giving the 32 bytes used as the scalar. *)
Theorem privateKey_is_sha256_of_passphrase (passphrase : string) (this : DogeApi) :
  DogeApi_new passphrase = Normal this ->
  privateKey (_keyPair this) = SHA256.hash (list_byte_of_string passphrase)
  /\ length (privateKey (_keyPair this)) = 32%nat.
Proof.
  intros H. destruct (DogeApi_new_Normal _ _ H) as [_ ->].
  cbn [privateKey _keyPair]. split; [reflexivity|apply sha256_length].
Qed.

Lemma privateKey_is_sha256_of_passphrase_test :
  privateKey (_keyPair test_wallet) = SHA256.hash (list_byte_of_string "test")
  /\ length (privateKey (_keyPair test_wallet)) = 32%nat.
Proof.
  apply (privateKey_is_sha256_of_passphrase "test" test_wallet).
  apply DogeApi_new_test.
Defined.

Example privateKey_test :
  toString_hex (SHA256.hash (list_byte_of_string "test"))
  = "9f86d081884c7d659a2feaa0c55ad015a3bf4f1b2b0b822cd15d6c15b0f00a08".
Proof. vm_compute. reflexivity. Qed.

(** * Further properties of the code *)

(** ** The client cache over sequences of calls *)

Lemma _get_this (endpoint url : string) params (this : DogeApi) :
  snd (_get endpoint url params this) = snd (_getClient endpoint this).
Proof. unfold _get. by destruct (_getClient endpoint this). Qed.

Lemma _post_this (endpoint url : string) data (this : DogeApi) :
  snd (_post endpoint url data this) = snd (_getClient endpoint this).
Proof. unfold _post. by destruct (_getClient endpoint this). Qed.

Lemma createTransaction_this toBuffer reply (endpoint address : string) (amount : float)
    (this : DogeApi) :
  snd (createTransaction toBuffer endpoint reply address amount this)
  = snd (_getClient endpoint this).
Proof.
  unfold createTransaction. rewrite <- (_get_this endpoint
    ("/addr/" +:+ DogeApi_address this +:+ "/utxo?noCache=1") [] this).
  by destruct (_get _ _ _ _).
Qed.

Lemma perform_this toBuffer reply (c : Call) (this : DogeApi) :
  exists endpoint, snd (perform toBuffer reply c this) = snd (_getClient endpoint this).
Proof.
  destruct c as [url|url txHex|url address amount]; exists url; unfold perform.
  - rewrite <- (_get_this url ("/addr/" +:+ DogeApi_address this +:+ "/balance") []).
    fold (getBalance url this). by destruct (getBalance url this).
  - rewrite <- (_post_this url "/tx/send" [("rawtx"%string, txHex)]).
    fold (sendTransaction url txHex this). by destruct (sendTransaction url txHex this).
  - rewrite <- (createTransaction_this toBuffer reply url address amount).
    by destruct (createTransaction _ _ _ _ _ _).
Qed.

Lemma perform_no_client toBuffer reply (c : Call) (this : DogeApi) :
  no_client this ->
  threw_TypeError (fst (perform toBuffer reply c this))
  /\ no_client (snd (perform toBuffer reply c this)).
Proof.
  intros Hnone. split.
  - destruct c as [url|url txHex|url address amount]; unfold perform.
    + destruct (getBalance_throws this url Hnone) as [m Hm].
      destruct (getBalance url this) as [r that]. cbn [fst] in *. subst r.
      exists m. by left.
    + destruct (sendTransaction_throws this url txHex Hnone) as [m Hm].
      destruct (sendTransaction url txHex this) as [r that]. cbn [fst] in *. subst r.
      exists m. by left.
    + destruct (createTransaction_throws toBuffer reply address amount this url Hnone)
        as [m Hm].
      destruct (createTransaction _ _ _ _ _ _) as [r that]. cbn [fst] in *. subst r.
      exists m. by right.
  - destruct (perform_this toBuffer reply c this) as [endpoint ->].
    unfold no_client. by apply _getClient_never_caches.
Qed.

Lemma perform_all_no_client toBuffer reply (cs : list Call) : forall this,
  no_client this ->
  Forall threw_TypeError (fst (perform_all toBuffer reply cs this))
  /\ no_client (snd (perform_all toBuffer reply cs this)).
Proof.
  induction cs as [|c cs IH]; intros this Hnone; simpl; [by split|].
  destruct (perform_no_client toBuffer reply c this Hnone) as [H1 H2].
  destruct (perform toBuffer reply c this) as [o that]. simpl in *.
  destruct (IH that H2) as [H3 H4].
  destruct (perform_all toBuffer reply cs that) as [os final]. simpl in *.
  split; [by constructor|done].
Qed.

Lemma DogeApi_new_no_client (passphrase : string) (this : DogeApi) :
  DogeApi_new passphrase = Normal this -> no_client this.
Proof.
  intros H. destruct (DogeApi_new_Normal _ _ H) as [_ ->].
  intros u c. cbn [_clients get_property]. rewrite lookup_empty.
  by destruct (bool_decide _).
Qed.

(** X1.  A wallet the constructor has built never sends a request:
    whatever the sequence of calls of [getBalance], [sendTransaction]
    and [createTransaction] on it, with whatever endpoints, every one
    of them throws a [TypeError], and the instance still holds no
    client after them. *)
Theorem constructed_wallet_never_requests (toBuffer : TransactionBuilder -> list byte)
    (reply : Request -> list Unspent) (passphrase : string) (this : DogeApi)
    (calls : list Call) :
  DogeApi_new passphrase = Normal this ->
  Forall threw_TypeError (fst (perform_all toBuffer reply calls this))
  /\ length (fst (perform_all toBuffer reply calls this)) = length calls
  /\ no_client (snd (perform_all toBuffer reply calls this)).
Proof.
  intros H. pose proof (DogeApi_new_no_client _ _ H) as Hnone.
  destruct (perform_all_no_client toBuffer reply calls this Hnone) as [H1 H2].
  split; [done|]. split; [|done].
  clear. revert this. induction calls as [|c cs IH]; intros this; [done|].
  simpl. destruct (perform toBuffer reply c this) as [o that].
  specialize (IH that). destruct (perform_all toBuffer reply cs that) as [os final].
  simpl in *. by rewrite IH.
Qed.

Lemma constructed_wallet_never_requests_test :
  let calls := [ GetBalance endpoint_url;
                 CreateTransaction endpoint_url destination 1;
                 SendTransaction endpoint_url "00" ] in
  let run := perform_all (fun _ => []) (fun _ => [unspent_5]) calls test_wallet in
  Forall threw_TypeError (fst run)
  /\ length (fst run) = length calls
  /\ no_client (snd run).
Proof.
  apply (constructed_wallet_never_requests (fun _ => []) (fun _ => [unspent_5]) "test").
  apply DogeApi_new_test.
Defined.

Lemma _getClient_identity (url : string) (this : DogeApi) :
  _keyPair (snd (_getClient url this)) = _keyPair this
  /\ _address (snd (_getClient url this)) = _address this.
Proof.
  unfold _getClient. by destruct (negb (truthy (get_property (_clients this) url))).
Qed.

(** X2.  Whatever the calls made on an instance, with or without a
    client in its cache, the key pair and the address it was built with
    stay as they were: the methods write to [_clients] only. *)
Theorem wallet_identity_is_kept (toBuffer : TransactionBuilder -> list byte)
    (reply : Request -> list Unspent) (calls : list Call) (this : DogeApi) :
  _keyPair (snd (perform_all toBuffer reply calls this)) = _keyPair this
  /\ _address (snd (perform_all toBuffer reply calls this)) = _address this.
Proof.
  revert this. induction calls as [|c cs IH]; intros this; [done|].
  simpl. destruct (perform_this toBuffer reply c this) as [endpoint E].
  destruct (perform toBuffer reply c this) as [o that]. simpl in E. subst that.
  specialize (IH (snd (_getClient endpoint this))).
  destruct (perform_all toBuffer reply cs _) as [os final]. simpl in *.
  destruct IH as [-> ->]. apply _getClient_identity.
Qed.

(** ** A client in the cache *)

Lemma FormData_append (data acc : list (string * string)) :
  fold_left (fun form kv => form ++ [kv]) data acc = acc ++ data.
Proof.
  revert acc. induction data as [|kv data IH]; intros acc; simpl.
  - by rewrite app_nil_r.
  - by rewrite IH, <- app_assoc.
Qed.

Lemma _getClient_cached (this : DogeApi) (own : gmap string AxiosInstance)
    (url : string) (c : AxiosInstance) :
  _clients this = PlainObject own ->
  own !! url = Some c ->
  _getClient url this = (Client c, this).
Proof.
  intros Hobj Hc. unfold _getClient. rewrite Hobj. cbn [get_property].
  rewrite Hc. cbn [truthy negb]. rewrite Hobj. cbn [get_property]. by rewrite Hc.
Qed.

Lemma cached_client_is_used_aux (this : DogeApi) (own : gmap string AxiosInstance)
    (url : string) (c : AxiosInstance) :
  _clients this = PlainObject own ->
  own !! url = Some c ->
  (forall path params,
     _get url path params this
     = (Normal {| req_client := c; req_method := GET; req_url := path;
                  req_data := params |}, this))
  /\ (forall path data,
        _post url path data this
        = (Normal {| req_client := c; req_method := POST; req_url := path;
                     req_data := data |}, this)).
Proof.
  intros Hobj Hc. pose proof (_getClient_cached _ _ _ _ Hobj Hc) as E.
  split; intros path data.
  - unfold _get. by rewrite E.
  - unfold _post. rewrite E. cbn [call_method]. by rewrite FormData_append.
Qed.

(** X3.  When the plain object in [_clients] holds a client under the
    endpoint URL, [_getClient] returns that client and leaves the
    instance as it is; [_get] then issues one GET request on it for the
    path and parameters given, and [_post] one POST request whose form
    holds the fields of [data] in their order. *)
Theorem cached_client_is_used (this : DogeApi) (own : gmap string AxiosInstance)
    (url : string) (c : AxiosInstance) :
  _clients this = PlainObject own ->
  own !! url = Some c ->
  _getClient url this = (Client c, this)
  /\ (forall path params,
        _get url path params this
        = (Normal {| req_client := c; req_method := GET; req_url := path;
                     req_data := params |}, this))
  /\ (forall path data,
        _post url path data this
        = (Normal {| req_client := c; req_method := POST; req_url := path;
                     req_data := data |}, this)).
Proof.
  intros Hobj Hc. split; [by apply (_getClient_cached _ own)|].
  by apply (cached_client_is_used_aux _ own).
Qed.

Lemma cached_wallet_clients :
  _clients cached_wallet = PlainObject {[ endpoint_url := axios_create endpoint_url ]}.
Proof. reflexivity. Qed.

Lemma cached_client_is_used_test :
  _getClient endpoint_url cached_wallet = (Client (axios_create endpoint_url), cached_wallet)
  /\ (forall path params,
        _get endpoint_url path params cached_wallet
        = (Normal {| req_client := axios_create endpoint_url; req_method := GET;
                     req_url := path; req_data := params |}, cached_wallet))
  /\ (forall path data,
        _post endpoint_url path data cached_wallet
        = (Normal {| req_client := axios_create endpoint_url; req_method := POST;
                     req_url := path; req_data := data |}, cached_wallet)).
Proof.
  apply (cached_client_is_used cached_wallet
           {[ endpoint_url := axios_create endpoint_url ]}).
  - reflexivity.
  - apply lookup_singleton_eq.
Defined.

(** X4.  With a client in the cache for the endpoint, [getBalance]
    asks it for [/addr/<address>/balance], [sendTransaction] posts the
    hex as the field [rawtx] to [/tx/send], and [createTransaction]
    asks for [/addr/<address>/utxo?noCache=1] and resolves to what its
    callback makes of the unspent outputs replied: it throws what
    [_buildTransaction] throws on them, and otherwise gives the hex
    with a txid of 64 characters; none of them changes the instance. *)
Theorem public_methods_with_cached_client (toBuffer : TransactionBuilder -> list byte)
    (reply : Request -> list Unspent) (this : DogeApi)
    (own : gmap string AxiosInstance) (url : string) (c : AxiosInstance)
    (address txHex : string) (amount : float) :
  _clients this = PlainObject own ->
  own !! url = Some c ->
  let request m path data :=
    {| req_client := c; req_method := m; req_url := path; req_data := data |} in
  let unspents := reply (request GET ("/addr/" +:+ _address this +:+ "/utxo?noCache=1") []) in
  let built := _buildTransaction_txb this address (createTransaction_amount amount) unspents in
  getBalance url this
  = (Normal (request GET ("/addr/" +:+ _address this +:+ "/balance") []), this)
  /\ sendTransaction url txHex this
     = (Normal (request POST "/tx/send" [("rawtx"%string, txHex)]), this)
  /\ createTransaction toBuffer url reply address amount this
     = (createTransaction_then toBuffer this address (createTransaction_amount amount)
          unspents, this)
  /\ (forall e, built = Throw e ->
        createTransaction toBuffer url reply address amount this = (Throw e, this))
  /\ (forall t, built = Normal t ->
        exists r,
          createTransaction toBuffer url reply address amount this = (Normal r, this)
          /\ Result.hex r = toString_hex (toBuffer t)
          /\ String.length (Result.txid r) = 64%nat).
Proof.
  intros Hobj Hc request unspents built.
  destruct (cached_client_is_used_aux this own url c Hobj Hc) as [Hget Hpost].
  split; [apply Hget|]. split; [apply Hpost|].
  assert (createTransaction toBuffer url reply address amount this
          = (createTransaction_then toBuffer this address (createTransaction_amount amount)
               unspents, this)) as E.
  { unfold createTransaction. rewrite Hget, Completion_bind_Normal. reflexivity. }
  split; [exact E|]. split.
  - intros e He. rewrite E. f_equal. by apply createTransaction_then_Throw.
  - intros t Ht. eexists. split; [|split].
    + rewrite E. f_equal. by apply createTransaction_then_closed.
    + reflexivity.
    + cbn [Result.txid].
      by rewrite toString_hex_length, length_reverse, sha256_length.
Qed.

Lemma public_methods_with_cached_client_test :
  let request m path data :=
    {| req_client := axios_create endpoint_url; req_method := m; req_url := path;
       req_data := data |} in
  let unspents :=
    (fun _ : Request => [unspent_5])
      (request GET ("/addr/" +:+ _address cached_wallet +:+ "/utxo?noCache=1") []) in
  let built :=
    _buildTransaction_txb cached_wallet destination (createTransaction_amount 1) unspents in
  getBalance endpoint_url cached_wallet
  = (Normal (request GET ("/addr/" +:+ _address cached_wallet +:+ "/balance") []),
     cached_wallet)
  /\ sendTransaction endpoint_url "00" cached_wallet
     = (Normal (request POST "/tx/send" [("rawtx"%string, "00"%string)]), cached_wallet)
  /\ createTransaction (fun _ => []) endpoint_url (fun _ => [unspent_5]) destination 1
       cached_wallet
     = (createTransaction_then (fun _ => []) cached_wallet destination
          (createTransaction_amount 1) unspents, cached_wallet)
  /\ (forall e, built = Throw e ->
        createTransaction (fun _ => []) endpoint_url (fun _ => [unspent_5]) destination 1
          cached_wallet = (Throw e, cached_wallet))
  /\ (forall t, built = Normal t ->
        exists r,
          createTransaction (fun _ => []) endpoint_url (fun _ => [unspent_5]) destination 1
            cached_wallet = (Normal r, cached_wallet)
          /\ Result.hex r = toString_hex ((fun _ => []) t)
          /\ String.length (Result.txid r) = 64%nat).
Proof.
  apply (public_methods_with_cached_client (fun _ => []) (fun _ => [unspent_5])
           cached_wallet {[ endpoint_url := axios_create endpoint_url ]}).
  - reflexivity.
  - apply lookup_singleton_eq.
Defined.

(** ** The shape of the built transaction *)

(** X5.  Every transaction [_buildTransaction] builds has version 1 and
    the network of the module, exactly two outputs, the first to the
    address given, of the amount given, and the second to the wallet's
    own address; each of its inputs is signed with the wallet's key
    pair, and there are no more inputs than unspent outputs. *)
Theorem built_transaction_shape (this : DogeApi) (address : string) (amount : float)
    (unspents : list Unspent) (t : TransactionBuilder) :
  _buildTransaction_txb this address amount unspents = Normal t ->
  exists change,
    tb_version t = 1
    /\ tb_network t = network
    /\ tb_outputs t = [ {| out_address := address; out_value := amount |};
                        {| out_address := _address this; out_value := change |} ]
    /\ Forall (fun input => signed_with input = Some (_keyPair this)) (tb_inputs t)
    /\ (length (tb_inputs t) <= length unspents)%nat.
Proof.
  intros H.
  destruct (_buildTransaction_txb_built _ _ _ _ _ H) as (l & Hinv & _ & -> & Hlen).
  eexists. unfold transaction_of in *.
  cbn [tb_version tb_network tb_outputs tb_inputs] in *.
  split; [done|]. split; [done|]. split; [done|]. split.
  - apply Forall_forall. intros input Hin.
    apply list_elem_of_lookup in Hin as [i Hi].
    rewrite list_lookup_imap in Hi.
    destruct (take _ unspents !! i) as [tx|]; [|done].
    simpl in Hi. by injection Hi as <-.
  - rewrite Hlen. by destruct Hinv.
Qed.

Lemma built_transaction_shape_run :
  exists change,
    tb_version transaction_of_one_unit = 1
    /\ tb_network transaction_of_one_unit = network
    /\ tb_outputs transaction_of_one_unit
       = [ {| out_address := destination; out_value := 1 |};
           {| out_address := _address test_wallet; out_value := change |} ]
    /\ Forall (fun input => signed_with input = Some (_keyPair test_wallet))
         (tb_inputs transaction_of_one_unit)
    /\ (length (tb_inputs transaction_of_one_unit) <= length [unspent_5])%nat.
Proof.
  apply (built_transaction_shape test_wallet destination 1 [unspent_5]).
  apply build_of_one_unit.
Defined.

(** ** What the selection depends on *)

Lemma forEach_reached (target : float) (extra : list Unspent) : forall l,
  (transferAmount l <? target)%float = false ->
  forEach (forEach_body target) extra l = Normal l.
Proof.
  induction extra as [|tx extra IH]; intros l Hl; [done|].
  cbn [forEach].
  assert (forEach_body target l tx = Normal l) as ->
    by (unfold forEach_body; cbv zeta; by rewrite Hl).
  rewrite Completion_bind_Normal.
  by apply IH.
Qed.

Lemma forEach_unspents_reached (target : float) (unspents extra : list Unspent) :
  (exists j, (j <= length unspents)%nat
             /\ (running_total (take j unspents) <? target)%float = false) ->
  forEach_unspents target (unspents ++ extra) = forEach_unspents target unspents.
Proof.
  intros (j & Hj & Hreached). unfold forEach_unspents at 1. rewrite forEach_app.
  fold (forEach_unspents target unspents).
  destruct (forEach_unspents target unspents) as [l|e] eqn:Hloop; [|done].
  rewrite Completion_bind_Normal. apply forEach_reached.
  destruct (forEach_unspents_invariant _ _ _ Hloop) as [Hc Ht _ _ _ _ Hb Hr _].
  destruct (decide (inputs l < length unspents)%nat) as [Hs|Hs]; [by apply Hr|].
  destruct (decide (j < inputs l)%nat) as [Hlt|Hge].
  - specialize (Hb j Hlt). congruence.
  - assert (j = inputs l) as -> by lia. by rewrite Ht.
Qed.

Lemma _buildTransaction_txb_reached (this : DogeApi) (address : string)
    (amount : float) (unspents extra : list Unspent) :
  (exists j, (j <= length unspents)%nat
             /\ (running_total (take j unspents) <? target_of amount)%float = false) ->
  _buildTransaction_txb this address amount (unspents ++ extra)
  = _buildTransaction_txb this address amount unspents.
Proof.
  intros H. unfold _buildTransaction_txb. by rewrite forEach_unspents_reached.
Qed.

(** X6.  Once the running total of the unspent outputs supplied has
    reached the target, whatever follows them in the list is not
    looked at: what [_buildTransaction] gives for the list with more
    outputs appended, a transaction or an exception, is the same. *)
Theorem outputs_after_the_target_are_ignored (this : DogeApi) (address : string)
    (amount : float) (unspents extra : list Unspent) :
  (exists j, (j <= length unspents)%nat
             /\ (running_total (take j unspents) <? target_of amount)%float = false) ->
  _buildTransaction_txb this address amount (unspents ++ extra)
  = _buildTransaction_txb this address amount unspents.
Proof. apply _buildTransaction_txb_reached. Qed.

Lemma outputs_after_the_target_are_ignored_test :
  _buildTransaction_txb test_wallet destination 1 ([unspent_5] ++ [unspent_half])
  = _buildTransaction_txb test_wallet destination 1 [unspent_5].
Proof.
  apply (outputs_after_the_target_are_ignored test_wallet destination 1).
  exists 1%nat. split; [simpl; lia|]. vm_compute. reflexivity.
Defined.

(** X7.  No transaction is built without an input: whenever
    [_buildTransaction] builds one, the list of unspent outputs is not
    empty, its first output is the first input, the target is above
    zero and the amount is a [Satoshi] value; on an empty list it
    throws, whatever the amount. *)
Theorem no_transaction_without_inputs (this : DogeApi) (address : string) (amount : float) :
  (forall unspents t,
     _buildTransaction_txb this address amount unspents = Normal t ->
     (0 <? target_of amount)%float = true
     /\ Satoshi amount = true
     /\ exists tx rest inputs',
          unspents = tx :: rest
          /\ tb_inputs t = input_of (Some (_keyPair this)) 0%nat tx :: inputs')
  /\ exists e, _buildTransaction_txb this address amount [] = Throw e
               /\ thrown_by_library e.
Proof.
  assert (forall unspents t,
     _buildTransaction_txb this address amount unspents = Normal t ->
     (0 <? target_of amount)%float = true
     /\ Satoshi amount = true
     /\ exists tx rest inputs',
          unspents = tx :: rest
          /\ tb_inputs t = input_of (Some (_keyPair this)) 0%nat tx :: inputs') as Hbuilt.
  { intros unspents t H.
    destruct (_buildTransaction_txb_built _ _ _ _ _ H) as (l & Hinv & Hacc & -> & _).
    destruct Hacc as (_ & Hs & _ & _ & _ & Hpos).
    destruct Hinv as [Hc _ _ _ _ _ Hb _ _].
    split; [exact (Hb 0%nat Hpos)|]. split; [done|].
    destruct unspents as [|tx rest]; [simpl in Hc; lia|].
    exists tx, rest. unfold transaction_of. cbn [tb_inputs].
    destruct (inputs l) as [|k]; [lia|]. by eexists. }
  split; [exact Hbuilt|].
  destruct (_buildTransaction_txb this address amount []) as [t|e] eqn:H.
  - destruct (Hbuilt _ _ H) as (_ & _ & tx & rest & inputs' & Hnil & _). done.
  - exists e. split; [done|]. by apply _buildTransaction_txb_Throw in H.
Qed.

(** X8.  A larger amount never takes fewer inputs: for
    [amount1 <= amount2] and the same unspent outputs, the inputs of
    the transaction built for [amount1] are the first of the inputs of
    the one built for [amount2]. *)
Theorem inputs_grow_with_amount (this : DogeApi) (address : string)
    (amount1 amount2 : float) (unspents : list Unspent) (t1 t2 : TransactionBuilder) :
  (amount1 <=? amount2)%float = true ->
  _buildTransaction_txb this address amount1 unspents = Normal t1 ->
  _buildTransaction_txb this address amount2 unspents = Normal t2 ->
  (length (tb_inputs t1) <= length (tb_inputs t2))%nat
  /\ tb_inputs t1 = take (length (tb_inputs t1)) (tb_inputs t2).
Proof.
  intros Hle H1 H2. apply target_of_mono in Hle.
  destruct (_buildTransaction_txb_built _ _ _ _ _ H1) as (l1 & Hinv1 & _ & -> & Hlen1).
  destruct (_buildTransaction_txb_built _ _ _ _ _ H2) as (l2 & Hinv2 & _ & -> & Hlen2).
  destruct Hinv1 as [Hc1 _ _ _ _ _ Hb1 _ _].
  destruct Hinv2 as [Hc2 Ht2 _ _ _ _ _ Hr2 _].
  assert (inputs l1 <= inputs l2)%nat as Hk.
  { destruct (decide (inputs l1 <= inputs l2)%nat) as [|Hn]; [done|].
    specialize (Hr2 ltac:(lia)). specialize (Hb1 (inputs l2) ltac:(lia)).
    rewrite Ht2 in Hr2. rewrite (ltb_leb_trans _ _ _ Hb1 Hle) in Hr2. done. }
  rewrite Hlen1, Hlen2. split; [done|].
  unfold transaction_of. cbn [tb_inputs].
  apply list_eq. intros i.
  rewrite lookup_take, !list_lookup_imap, !lookup_take.
  repeat case_decide; try done; lia.
Qed.


Lemma build_of_five_units :
  _buildTransaction_txb test_wallet destination 5 [unspent_5; unspent_half; unspent_3]
  = Normal transaction_of_five_units.
Proof.
  apply _buildTransaction_txb_Normal.
  exists {| txb := {| tb_network := network; tb_version := 1;
                      tb_inputs := imap (input_of None) [unspent_5; unspent_half; unspent_3];
                      tb_outputs := [] |};
            transferAmount := 850000000; inputs := 3%nat |}.
  split; [vm_compute; reflexivity|]. split.
  - unfold accepted. cbn [transferAmount inputs].
    split; [apply destination_has_Script|]. split; [vm_compute; reflexivity|].
    split; [apply test_wallet_has_Script|]. split; [vm_compute; reflexivity|].
    split; [reflexivity|lia].
  - unfold transaction_of, transaction_of_five_units.
    cbn [transferAmount inputs take]. by repeat f_equal.
Qed.

Lemma build_of_one_unit_of_three :
  _buildTransaction_txb test_wallet destination 1 [unspent_5; unspent_half; unspent_3]
  = Normal transaction_of_one_unit.
Proof.
  change [unspent_5; unspent_half; unspent_3] with ([unspent_5] ++ [unspent_half; unspent_3]).
  rewrite _buildTransaction_txb_reached; [apply build_of_one_unit|].
  exists 1%nat. split; [simpl; lia|]. vm_compute. reflexivity.
Qed.

Lemma inputs_grow_with_amount_test :
  (length (tb_inputs transaction_of_one_unit)
   <= length (tb_inputs transaction_of_five_units))%nat
  /\ tb_inputs transaction_of_one_unit
     = take (length (tb_inputs transaction_of_one_unit))
         (tb_inputs transaction_of_five_units).
Proof.
  apply (inputs_grow_with_amount test_wallet destination 1 5
           [unspent_5; unspent_half; unspent_3]).
  - vm_compute. reflexivity.
  - apply build_of_one_unit_of_three.
  - apply build_of_five_units.
Defined.
(** ** The transaction identifier of any string *)

Lemma createTransaction_txid_closed (hex : string) :
  createTransaction_txid hex
  = Normal (toString_hex (reverse (sha256 (sha256 (Buffer_from_hex hex))))).
Proof.
  unfold createTransaction_txid, crypto_sha256.
  unfold String_match_dot2. rewrite matches_dot2_toString.
  pose proof (sha256_length (sha256 (Buffer_from_hex hex))) as Hlen.
  destruct (sha256 (sha256 (Buffer_from_hex hex))) as [|b d] eqn:Hd; [done|].
  cbn [fmap list_fmap]. f_equal.
  by rewrite <- fmap_cons, <- fmap_reverse, Array_join_byte_hex.
Qed.

Lemma byte_hex_lower (b : byte) (s : string) :
  forallb is_lower_hex (list_ascii_of_string (byte_hex b +:+ s))
  = forallb is_lower_hex (list_ascii_of_string s).
Proof. destruct b; reflexivity. Qed.

Lemma toString_hex_lower (bs : list byte) :
  forallb is_lower_hex (list_ascii_of_string (toString_hex bs)) = true.
Proof.
  induction bs as [|b bs IH]; [done|].
  change (toString_hex (b :: bs)) with (byte_hex b +:+ toString_hex bs).
  by rewrite byte_hex_lower.
Qed.

(** X9.  Lines 58-60 never throw, whatever string they are given as
    the hex (one with characters that are no hex digits, of odd length
    or empty as well): the pattern always finds its 32 pairs, and the
    txid is a string of 64 characters among [0-9a-f], the reversed
    double SHA-256 of the bytes the string decodes to. *)
Theorem txid_of_any_string (hex : string) :
  exists txid,
    createTransaction_txid hex = Normal txid
    /\ txid = toString_hex (reverse (sha256 (sha256 (Buffer_from_hex hex))))
    /\ String.length txid = 64%nat
    /\ forallb is_lower_hex (list_ascii_of_string txid) = true.
Proof.
  eexists. split; [apply createTransaction_txid_closed|].
  split; [done|]. split; [|apply toString_hex_lower].
  by rewrite toString_hex_length, length_reverse, sha256_length.
Qed.

Example txid_of_odd_and_foreign_characters :
  createTransaction_txid "0" = createTransaction_txid ""
  /\ createTransaction_txid "zz" = createTransaction_txid ""
  /\ createTransaction_txid "AB" = createTransaction_txid "ab".
Proof. vm_compute. repeat split; reflexivity. Qed.

(** ** The outcome of the constructor *)

Lemma be_value_nonneg_from (bs : list byte) : forall acc,
  0 <= acc -> 0 <= fold_left (fun acc b => acc * 256 + byte_to_Z b) bs acc.
Proof.
  induction bs as [|b bs IH]; intros acc Hacc; [done|].
  simpl. apply IH. unfold byte_to_Z. lia.
Qed.

Lemma be_bytes_length (n : nat) : forall v, length (be_bytes n v) = n.
Proof.
  induction n as [|n IH]; intros v; [done|].
  cbn [be_bytes]. rewrite length_app, IH. simpl. lia.
Qed.

Lemma pointFromScalar_length (d : list byte) :
  length (Secp256k1.pointFromScalar d) = 33%nat.
Proof.
  unfold Secp256k1.pointFromScalar.
  destruct (Secp256k1.affine _) as [x y].
  cbn [length]. by rewrite be_bytes_length.
Qed.

(** X10.  The constructor has two outcomes.  When the hash of the
    passphrase, read as a big-endian number, lies in [1, n) (n the order
    of secp256k1), it returns a wallet with that hash of 32 bytes as
    private key, a public key of 33 bytes, the network of the module
    and an empty client cache; when the number is 0 or at least n, it
    throws the [TypeError] of [ECPair.fromPrivateKey] and builds no
    wallet. *)
Theorem constructor_outcome (passphrase : string) :
  let d := sha256 (Buffer_from passphrase) in
  (0 < be_value d < Secp256k1.n
   /\ exists this,
        DogeApi_new passphrase = Normal this
        /\ privateKey (_keyPair this) = d
        /\ length (privateKey (_keyPair this)) = 32%nat
        /\ length (publicKey (_keyPair this)) = 33%nat
        /\ kp_network (_keyPair this) = network
        /\ _clients this = PlainObject ∅)
  \/ ((be_value d = 0 \/ Secp256k1.n <= be_value d)
      /\ DogeApi_new passphrase = Throw (TypeError "Private key not in range [1, n)")).
Proof.
  intros d.
  assert (0 <= be_value d) as Hpos by (by apply be_value_nonneg_from).
  assert (length d = 32%nat) as Hlen by apply sha256_length.
  unfold DogeApi_new, ECPair_fromPrivateKey, crypto_sha256. fold d. clearbody d.
  unfold Secp256k1.isPrivate. rewrite Hlen.
  cbn [Nat.eqb andb].
  destruct (Z.ltb_spec 0 (be_value d)) as [H0|H0];
    destruct (Z.ltb_spec (be_value d) Secp256k1.n) as [Hn|Hn]; cbn [andb].
  - left. split; [lia|]. rewrite Completion_bind_Normal. eexists. split; [done|].
    cbn [privateKey publicKey kp_network _keyPair _clients].
    split; [reflexivity|]. split; [exact Hlen|].
    split; [apply pointFromScalar_length|]. by split.
  - right. split; [right; lia|done].
  - right. split; [left; lia|done].
  - right. split; [left; lia|done].
Qed.

(** ** What of an unspent output counts *)

Lemma forEach_same_units (target : float) (us us' : list Unspent) :
  Forall2 (fun tx tx' => txid tx = txid tx' /\ units tx = units tx') us us' ->
  forall l, forEach (forEach_body target) us l = forEach (forEach_body target) us' l.
Proof.
  induction 1 as [|tx tx' us us' [Hid Hunits] _ IH]; intros l; [done|].
  cbn [forEach].
  assert (forEach_body target l tx = forEach_body target l tx') as ->.
  { unfold forEach_body. fold (units tx) (units tx'). by rewrite Hid, Hunits. }
  destruct (forEach_body target l tx') as [l'|e]; [apply IH|done].
Qed.

(** X11.  Of each unspent output the builder uses the txid and the
    floored product of line 90, and nothing else: two lists whose
    outputs agree, one by one, in txid and in that number (amounts that
    differ by less than a smallest unit, say) give the same
    transaction, or the same exception. *)
Theorem fractions_of_a_unit_are_ignored (this : DogeApi) (address : string)
    (amount : float) (unspents unspents' : list Unspent) :
  Forall2 (fun tx tx' => txid tx = txid tx' /\ units tx = units tx') unspents unspents' ->
  _buildTransaction_txb this address amount unspents
  = _buildTransaction_txb this address amount unspents'.
Proof.
  intros H. unfold _buildTransaction_txb, forEach_unspents.
  by rewrite (forEach_same_units _ _ _ H).
Qed.

Lemma fractions_of_a_unit_are_ignored_test :
  _buildTransaction_txb test_wallet destination 1 [unspent_5]
  = _buildTransaction_txb test_wallet destination 1
      [ {| txid := txid_aa; amount := 5.000000009; vout := 0 |} ].
Proof.
  apply (fractions_of_a_unit_are_ignored test_wallet destination 1).
  repeat constructor.
Defined.

(** Amounts that print alike need not agree in that number: 0.29 coin
    counts as 28999999 units, 0.2900000001 coin as 29000000. *)
Example units_of_close_amounts :
  units {| txid := txid_aa; amount := 0.29; vout := 0 |} = 28999999%float
  /\ units {| txid := txid_aa; amount := 0.2900000001; vout := 0 |} = 29000000%float.
Proof. vm_compute. split; reflexivity. Qed.
